(** * photoselect: classification, grouping and commit engine of senbetu.py

    A shallow embedding of the logic of [ImageAnalyzer.run] and of
    [PhotoReviewApp] (judgment logic, key handling, batch move), with the
    properties of the classification store proved over it.

    Conventions of the embedding:
    - Python floats are binary64 primitive floats, Python ints are [Z]
      (indices and tallies, which the code keeps non-negative, are [nat]);
    - a Python dict is a [gmap]; the per-file dict of [image_data] is the
      record [image_record];
    - a function returns [None] where the Python code lets an exception
      (KeyError, ValueError, IndexError, OSError) escape;
    - OpenCV, the file system and the path helpers of [os.path] are
      variables of the sections that use them;
    - drawing (update_overlay_only, refresh_grid_styles, build_grid_view,
      the pixmap part of show_current_image) reads the store and changes
      none of the fields modelled here, so it is left out. *)

From Stdlib Require Import ZArith PrimFloat Uint63.
From stdpp Require Import gmap strings list fin_maps.

Set Default Proof Using "Type".
#[local] Set Warnings "-inexact-float".
#[local] Open Scope Z_scope.

(** ** Settings (module-level constants) *)

Definition DEFAULT_BLUR_THRESHOLD : float := 150%float.
Definition DEFAULT_SIMILARITY_THRESHOLD : Z := 85.
Definition DELETE_FOLDER_NAME : string := "Deleted_Images".
Definition SELECT_FOLDER_NAME : string := "Selected_Images".

(** ** Comparisons as Python evaluates them *)

(** [x < n] for a float [x] and an int [n]: Python compares the exact
    values; the slider values are small enough to be exact as floats. *)
Definition float_lt_int (x : float) (n : Z) : bool :=
  PrimFloat.ltb x (PrimFloat.of_uint63 (Uint63.of_Z n)).

(** [x >= y] on floats. *)
Definition float_ge (x y : float) : bool := PrimFloat.leb y x.

(** [slider.value() / 100.0] *)
Definition percent (v : Z) : float :=
  PrimFloat.div (PrimFloat.of_uint63 (Uint63.of_Z v)) 100%float.

(** ** The classification store *)

Record image_record := ImageRecord {
  score : float;
  sim_prev : float;
  to_delete : bool;
  to_select : bool;
  group_id : Z;
  is_blur : bool
}.

Definition set_score (x : float) (d : image_record) : image_record :=
  ImageRecord x (sim_prev d) (to_delete d) (to_select d) (group_id d) (is_blur d).
Definition set_sim_prev (x : float) (d : image_record) : image_record :=
  ImageRecord (score d) x (to_delete d) (to_select d) (group_id d) (is_blur d).
Definition set_to_delete (b : bool) (d : image_record) : image_record :=
  ImageRecord (score d) (sim_prev d) b (to_select d) (group_id d) (is_blur d).
Definition set_to_select (b : bool) (d : image_record) : image_record :=
  ImageRecord (score d) (sim_prev d) (to_delete d) b (group_id d) (is_blur d).
Definition set_group_id (g : Z) (d : image_record) : image_record :=
  ImageRecord (score d) (sim_prev d) (to_delete d) (to_select d) g (is_blur d).
Definition set_is_blur (b : bool) (d : image_record) : image_record :=
  ImageRecord (score d) (sim_prev d) (to_delete d) (to_select d) (group_id d) b.

(** The record every file starts with (the dict comprehension of __init__). *)
Definition initial_record : image_record :=
  ImageRecord 0%float 0%float false false (-1) false.

(** What the status label shows; the two texts the code writes into it. *)
Inductive status :=
  | StatusEmpty
  | StatusPosition (idx total : nat)      (* "枚数: idx/total | ..." *)
  | StatusDone (count_del count_sel : nat). (* "完了: 削除..枚, 選抜..枚" *)

Section App.

(** Cached thumbnails (QPixmap). *)
Context {Thumb : Type}.

Record app := App {
  files : list string;
  current_idx : nat;
  image_data : gmap string image_record;
  group_counts : gmap Z nat;
  thumbnail_cache : gmap string Thumb;
  delete_path : string;
  select_path : string;
  slider_blur : Z;
  slider_sim : Z;
  stack_index : nat;          (* 0: single view, 1: grid view *)
  status_label : status
}.

Definition with_files (l : list string) (s : app) : app :=
  App l (current_idx s) (image_data s) (group_counts s) (thumbnail_cache s)
      (delete_path s) (select_path s) (slider_blur s) (slider_sim s)
      (stack_index s) (status_label s).
Definition with_current_idx (i : nat) (s : app) : app :=
  App (files s) i (image_data s) (group_counts s) (thumbnail_cache s)
      (delete_path s) (select_path s) (slider_blur s) (slider_sim s)
      (stack_index s) (status_label s).
Definition with_image_data (m : gmap string image_record) (s : app) : app :=
  App (files s) (current_idx s) m (group_counts s) (thumbnail_cache s)
      (delete_path s) (select_path s) (slider_blur s) (slider_sim s)
      (stack_index s) (status_label s).
Definition with_group_counts (c : gmap Z nat) (s : app) : app :=
  App (files s) (current_idx s) (image_data s) c (thumbnail_cache s)
      (delete_path s) (select_path s) (slider_blur s) (slider_sim s)
      (stack_index s) (status_label s).
Definition with_thumbnail_cache (t : gmap string Thumb) (s : app) : app :=
  App (files s) (current_idx s) (image_data s) (group_counts s) t
      (delete_path s) (select_path s) (slider_blur s) (slider_sim s)
      (stack_index s) (status_label s).
Definition with_slider_blur (v : Z) (s : app) : app :=
  App (files s) (current_idx s) (image_data s) (group_counts s) (thumbnail_cache s)
      (delete_path s) (select_path s) v (slider_sim s)
      (stack_index s) (status_label s).
Definition with_slider_sim (v : Z) (s : app) : app :=
  App (files s) (current_idx s) (image_data s) (group_counts s) (thumbnail_cache s)
      (delete_path s) (select_path s) (slider_blur s) v
      (stack_index s) (status_label s).
Definition with_stack_index (i : nat) (s : app) : app :=
  App (files s) (current_idx s) (image_data s) (group_counts s) (thumbnail_cache s)
      (delete_path s) (select_path s) (slider_blur s) (slider_sim s)
      i (status_label s).
Definition with_status_label (t : status) (s : app) : app :=
  App (files s) (current_idx s) (image_data s) (group_counts s) (thumbnail_cache s)
      (delete_path s) (select_path s) (slider_blur s) (slider_sim s)
      (stack_index s) t.

(** [l.index(x)]: position of the first occurrence, ValueError if none. *)
Fixpoint list_index (x : string) (l : list string) : option nat :=
  match l with
  | [] => None
  | y :: l' => if decide (y = x) then Some 0%nat else S <$> list_index x l'
  end.

(** [[v['group_id'] for v in self.image_data.values()]].  Python lists
    the values in insertion order, [map_to_list] in key order; the
    tallies below only count, so the order does not matter. *)
Definition all_group_ids (m : gmap string image_record) : list Z :=
  group_id <$> (map_to_list m).*2.

(** [ids.count(i)] *)
Definition count_id (i : Z) (ids : list Z) : nat :=
  length (filter (λ j, j = i) ids).

(** [{i: ids.count(i) for i in set(ids)}] *)
Definition tally (ids : list Z) : gmap Z nat :=
  set_to_map (λ i, (i, count_id i ids)) (list_to_set ids : gset Z).

(** *** apply_judgment_logic *)
Definition apply_judgment_logic (s : app) (fpath : string)
    (update_group_id : bool) : option app :=
  data ← image_data s !! fpath;
  let blur_th := slider_blur s in
  let data := set_is_blur (float_lt_int (score data) blur_th) data in
  let m := <[fpath := data]> (image_data s) in
  if update_group_id then
    idx ← list_index fpath (files s);
    data' ←
      (if (0 <? idx)%nat then
         let sim_th := percent (slider_sim s) in
         prev_path ← files s !! (idx - 1)%nat;
         prev ← m !! prev_path;
         if float_ge (sim_prev data) sim_th
         then Some (set_group_id (group_id prev) data)
         else Some (set_group_id (group_id prev + 1) data)
       else Some (set_group_id 0 data));
    let m' := <[fpath := data']> m in
    let ids := filter (λ g, g ≠ -1) (all_group_ids m') in
    let counts := match ids with [] => group_counts s | _ => tally ids end in
    Some (with_group_counts counts (with_image_data m' s))
  else Some (with_image_data m s).

(** *** handle_analysis_result
    The last line of the source reads [self.files[self.current_idx]] to
    decide whether to redraw; only its IndexError is visible here. *)
Definition handle_analysis_result (s : app) (fpath : string)
    (blur_score sim_score : float) (thumb : Thumb) : option app :=
  d ← image_data s !! fpath;
  let m := <[fpath := set_score blur_score d]> (image_data s) in
  d ← m !! fpath;
  let m := <[fpath := set_sim_prev sim_score d]> m in
  let s := with_thumbnail_cache (<[fpath := thumb]> (thumbnail_cache s))
             (with_image_data m s) in
  s ← apply_judgment_logic s fpath true;
  _ ← files s !! current_idx s;
  Some s.

(** *** refresh_judgments_instantly *)

(** Step 1: [for fpath in self.files: apply_judgment_logic(fpath, False)] *)
Fixpoint refresh_blur (fs : list string) (s : app) : option app :=
  match fs with
  | [] => Some s
  | fpath :: fs' => s' ← apply_judgment_logic s fpath false; refresh_blur fs' s'
  end.

(** Step 2, the loop [for i in range(1, len(self.files))], run over the
    files from position 1 on, with the running [curr_group_id]. *)
Fixpoint regroup (sim_threshold : float) (fs : list string) (curr_group_id : Z)
    (m : gmap string image_record) : option (gmap string image_record) :=
  match fs with
  | [] => Some m
  | fpath :: fs' =>
      d ← m !! fpath;
      let prev_sim := sim_prev d in
      if float_ge prev_sim sim_threshold
      then regroup sim_threshold fs' curr_group_id
             (<[fpath := set_group_id curr_group_id d]> m)
      else regroup sim_threshold fs' (curr_group_id + 1)
             (<[fpath := set_group_id (curr_group_id + 1) d]> m)
  end.

Definition refresh_judgments_instantly (s : app) : option app :=
  s1 ← refresh_blur (files s) s;
  let curr_group_id := 0 in
  let sim_threshold := percent (slider_sim s1) in
  m0 ← match files s1 with
       | [] => Some (image_data s1)
       | f0 :: _ => d ← image_data s1 !! f0;
                    Some (<[f0 := set_group_id 0 d]> (image_data s1))
       end;
  m ← regroup sim_threshold (drop 1 (files s1)) curr_group_id m0;
  let ids := all_group_ids m in
  Some (with_group_counts (tally ids) (with_image_data m s1)).

(** *** get_grid_style (and the same test in draw_hud_on_pixmap) *)
Definition is_burst (s : app) (data : image_record) : bool :=
  (1 <? default 0%nat (group_counts s !! group_id data))%nat.

Definition get_grid_style (s : app) (fpath : string) : option string :=
  data ← image_data s !! fpath;
  let burst := is_burst s data in
  if to_delete data then Some "border: 5px solid #F33; background: #400;"%string
  else if to_select data then Some "border: 5px solid #3F3; background: #040;"%string
  else if is_blur data then Some "border: 5px solid #FA0; background: #430;"%string
  else if burst then Some "border: 5px solid #0FF; background: #033;"%string
  else Some "border: 2px solid #444;"%string.

(** *** show_current_image / update_status_label: the status text *)
Definition show_current_image (s : app) : app :=
  match files s with
  | [] => s
  | _ => with_status_label
           (StatusPosition (current_idx s + 1) (length (files s))) s
  end.

(** *** __init__
    [fs] is the sorted list of image paths of the folder; [delete_dir] and
    [select_dir] are the folder path joined with DELETE_FOLDER_NAME and
    SELECT_FOLDER_NAME.  The blur slider starts at
    int(DEFAULT_BLUR_THRESHOLD) = 150. *)
Definition init_app (delete_dir select_dir : string) (fs : list string) : app :=
  let s := App fs 0%nat
             (list_to_map ((λ f, (f, initial_record)) <$> fs))
             ∅ ∅ delete_dir select_dir
             150 DEFAULT_SIMILARITY_THRESHOLD 0%nat StatusEmpty in
  show_current_image s.

End App.

Arguments app : clear implicits.

(** ** Operator decisions and the batch move *)

Inductive action := ActDelete | ActSelect.

Inductive key := Key_S | Key_D | Key_E | Key_Right | Key_Left | Key_F | Key_other.

(** Loop state of execute_actions: the store, the file system and the two
    counters. *)
Record commit_st (Thumb FS : Type) := CommitSt {
  cs_app : app Thumb;
  cs_fs : FS;
  count_del : nat;
  count_sel : nat
}.
Arguments CommitSt {Thumb FS}.
Arguments cs_app {Thumb FS}.
Arguments cs_fs {Thumb FS}.
Arguments count_del {Thumb FS}.
Arguments count_sel {Thumb FS}.

Section Commit.

Context {Thumb FS : Type}.

(** The file system as the code uses it.  [makedirs] and [shutil_move]
    return [None] when the call raises. *)
Variable path_exists : string → FS → bool.
Variable makedirs : string → FS → option FS.
Variable shutil_move : string → string → FS → option FS.
Variable basename : string → string.
Variable path_join : string → string → string.

(** [if not os.path.exists(p): os.makedirs(p)] *)
Definition ensure_dir (p : string) (w : FS) : option FS :=
  if path_exists p w then Some w else makedirs p w.

(** The list [to_process] built from the marks. *)
Fixpoint collect_marked (m : gmap string image_record) (fs : list string)
    : option (list (string * action)) :=
  match fs with
  | [] => Some []
  | f :: fs' =>
      d ← m !! f;
      tl ← collect_marked m fs';
      if to_delete d then Some ((f, ActDelete) :: tl)
      else if to_select d then Some ((f, ActSelect) :: tl)
      else Some tl
  end.

(** [l.remove(x)]: drops the first occurrence, ValueError if none. *)
Fixpoint list_remove (x : string) (l : list string) : option (list string) :=
  match l with
  | [] => None
  | y :: l' => if decide (y = x) then Some l' else (y ::.) <$> list_remove x l'
  end.

Definition destination (s : app Thumb) (act : action) (fpath : string) : string :=
  let fname := basename fpath in
  match act with
  | ActDelete => path_join (delete_path s) fname
  | ActSelect => path_join (select_path s) fname
  end.

(** One round of the loop: the body of the [try], and [except: pass].
    An exception leaves what was done before it in place. *)
Definition commit_one (st : commit_st Thumb FS) (item : string * action)
    : commit_st Thumb FS :=
  let '(fpath, act) := item in
  let s := cs_app st in
  match shutil_move fpath (destination s act fpath) (cs_fs st) with
  | None => st
  | Some w' =>
      let cd := match act with ActDelete => S (count_del st) | ActSelect => count_del st end in
      let cs := match act with ActDelete => count_sel st | ActSelect => S (count_sel st) end in
      match list_remove fpath (files s) with
      | None => CommitSt s w' cd cs
      | Some l =>
          let s := with_files l s in
          match image_data s !! fpath with
          | None => CommitSt s w' cd cs
          | Some _ =>
              let s := with_image_data (delete fpath (image_data s)) s in
              let s := with_thumbnail_cache (delete fpath (thumbnail_cache s)) s in
              CommitSt s w' cd cs
          end
      end
  end.

Definition commit_loop (to_process : list (string * action))
    (st : commit_st Thumb FS) : commit_st Thumb FS :=
  fold_left commit_one to_process st.

(** [if self.current_idx >= len(self.files): ... = max(0, len(self.files)-1)]
    (on [nat] the subtraction already stops at 0). *)
Definition clamp_current_idx (s : app Thumb) : app Thumb :=
  if (length (files s) <=? current_idx s)%nat
  then with_current_idx (Nat.max 0 (length (files s) - 1)) s
  else s.

(** *** execute_actions *)
Definition execute_actions (s : app Thumb) (w : FS) : option (app Thumb * FS) :=
  w ← ensure_dir (delete_path s) w;
  w ← ensure_dir (select_path s) w;
  to_process ← collect_marked (image_data s) (files s);
  match to_process with
  | [] => Some (s, w)
  | _ =>
      let st := commit_loop to_process (CommitSt s w 0%nat 0%nat) in
      let s := clamp_current_idx (cs_app st) in
      let s := if (stack_index s =? 0)%nat then show_current_image s else s in
      Some (with_status_label (StatusDone (count_del st) (count_sel st)) s, cs_fs st)
  end.

(** *** keyPressEvent, the D and E branches *)
Definition toggle_delete (d : image_record) : image_record :=
  let d := set_to_delete (negb (to_delete d)) d in
  if to_delete d then set_to_select false d else d.

Definition toggle_select (d : image_record) : image_record :=
  let d := set_to_select (negb (to_select d)) d in
  if to_select d then set_to_delete false d else d.

(** *** keyPressEvent *)
Definition keyPressEvent (s : app Thumb) (w : FS) (k : key)
    : option (app Thumb * FS) :=
  match files s with
  | [] => Some (s, w)
  | _ =>
      fpath ← files s !! current_idx s;
      match k with
      | Key_S =>
          if (stack_index s =? 0)%nat then Some (with_stack_index 1 s, w)
          else Some (show_current_image (with_stack_index 0 s), w)
      | Key_D =>
          d ← image_data s !! fpath;
          Some (with_image_data (<[fpath := toggle_delete d]> (image_data s)) s, w)
      | Key_E =>
          d ← image_data s !! fpath;
          Some (with_image_data (<[fpath := toggle_select d]> (image_data s)) s, w)
      | Key_Right =>
          if (current_idx s <? length (files s) - 1)%nat then
            let s := with_current_idx (current_idx s + 1) s in
            Some (if (stack_index s =? 0)%nat then show_current_image s else s, w)
          else Some (s, w)
      | Key_Left =>
          if (0 <? current_idx s)%nat then
            let s := with_current_idx (current_idx s - 1) s in
            Some (if (stack_index s =? 0)%nat then show_current_image s else s, w)
          else Some (s, w)
      | Key_F => execute_actions s w
      | Key_other => Some (s, w)
      end
  end.

(** *** switch_to_single_view *)
Definition switch_to_single_view (s : app Thumb) (index : nat) : app Thumb :=
  show_current_image (with_stack_index 0 (with_current_idx index s)).

(** *** The sliders
    A QSlider keeps its value inside its range and signals valueChanged,
    which is connected to refresh_judgments_instantly, when it changes. *)
Definition set_slider_blur (s : app Thumb) (v : Z) : option (app Thumb) :=
  let v := Z.max 0 (Z.min 500 v) in
  if decide (v = slider_blur s) then Some s
  else refresh_judgments_instantly (with_slider_blur v s).

Definition set_slider_sim (s : app Thumb) (v : Z) : option (app Thumb) :=
  let v := Z.max 50 (Z.min 100 v) in
  if decide (v = slider_sim s) then Some s
  else refresh_judgments_instantly (with_slider_sim v s).

(** *** Everything that can happen to the window *)
Inductive op :=
  | OpResult (fpath : string) (blur_score sim_score : float) (thumb : Thumb)
  | OpSetBlur (v : Z)
  | OpSetSim (v : Z)
  | OpKey (k : key)
  | OpClick (index : nat).

Definition run_op (o : op) (st : app Thumb * FS) : option (app Thumb * FS) :=
  let '(s, w) := st in
  match o with
  | OpResult fpath b si t => s' ← handle_analysis_result s fpath b si t; Some (s', w)
  | OpSetBlur v => s' ← set_slider_blur s v; Some (s', w)
  | OpSetSim v => s' ← set_slider_sim s v; Some (s', w)
  | OpKey k => keyPressEvent s w k
  | OpClick index =>
      (* a grid label exists only for a position of the list *)
      if (index <? length (files s))%nat
      then Some (switch_to_single_view s index, w) else Some (s, w)
  end.

(** States the window can be in: the initial one, and any state an
    operation takes a reachable state to. *)
Inductive reachable (dd sd : string) (fs : list string) (w0 : FS)
    : app Thumb * FS → Prop :=
  | reach_init : reachable dd sd fs w0 (init_app dd sd fs, w0)
  | reach_step st o st' :
      reachable dd sd fs w0 st → run_op o st = Some st' →
      reachable dd sd fs w0 st'.

(** Whether operation [o], run on the store [s], classifies the file [f]:
    a result for [f] runs apply_judgment_logic on it, and a slider whose
    value changes runs refresh_judgments_instantly over every file.  Keys
    and clicks call neither. *)
Definition classifies (s : app Thumb) (o : op) (f : string) : bool :=
  match o with
  | OpResult fpath _ _ _ => bool_decide (fpath = f)
  | OpSetBlur v => bool_decide (Z.max 0 (Z.min 500 v) ≠ slider_blur s)
  | OpSetSim v => bool_decide (Z.max 50 (Z.min 100 v) ≠ slider_sim s)
  | OpKey _ | OpClick _ => false
  end.

(** States reached from the initial one by operations none of which
    classifies [f]. *)
Inductive unclassified (dd sd : string) (fs : list string) (w0 : FS) (f : string)
    : app Thumb * FS → Prop :=
  | unclassified_init : unclassified dd sd fs w0 f (init_app dd sd fs, w0)
  | unclassified_step st o st' :
      unclassified dd sd fs w0 f st → classifies st.1 o f = false →
      run_op o st = Some st' →
      unclassified dd sd fs w0 f st'.

End Commit.

(** ** The analysis thread *)

Inductive event (Thumb : Type) :=
  | ResultReady (fpath : string) (blur_score sim_score : float) (thumb : Thumb)
  | ProgressUpdate (current total : nat).
Arguments ResultReady {Thumb}.
Arguments ProgressUpdate {Thumb}.

Section Analyzer.

Context {Img Thumb : Type}.

(** OpenCV: [cv2.imread] ([None] when the file cannot be read), the
    thumbnail of lines 59-65, the 100-pixel sample of line 68, the
    histogram comparison of calculate_similarity and calculate_blur. *)
Variable imread : string → option Img.
Variable make_thumbnail : Img → Thumb.
Variable sim_sample : Img → Img.
Variable compare_hist : Img → Img → float.
Variable calculate_blur : Img → float.

(** What [self.is_running] reads at the start of round [i]. *)
Variable is_running : nat → bool.

Definition calculate_similarity (img1 img2 : option Img) : float :=
  match img1, img2 with
  | Some a, Some b => compare_hist a b
  | _, _ => 0%float
  end.

(** The loop of [run] from round [i] on, [fs] being the files left. *)
Fixpoint run_from (total i : nat) (fs : list string) (last_img_sim : option Img)
    : list (event Thumb) :=
  match fs with
  | [] => []
  | fpath :: fs' =>
      if negb (is_running i) then []
      else
        match imread fpath with
        | None => run_from total (S i) fs' last_img_sim
        | Some img =>
            let thumb_qimg := make_thumbnail img in
            let img_sim_curr := sim_sample img in
            let sim_score :=
              if (0 <? i)%nat && bool_decide (is_Some last_img_sim)
              then calculate_similarity (Some img_sim_curr) last_img_sim
              else 0%float in
            let blur_score := calculate_blur img in
            ResultReady fpath blur_score sim_score thumb_qimg
              :: ProgressUpdate (i + 1) total
              :: run_from total (S i) fs' (Some img_sim_curr)
        end
  end.

Definition run (fs : list string) : list (event Thumb) :=
  run_from (length fs) 0 fs None.

(** Delivery of the signals to their slots (update_progress is [pass]). *)
Definition deliver (s : app Thumb) (e : event Thumb) : option (app Thumb) :=
  match e with
  | ResultReady fpath b si t => handle_analysis_result s fpath b si t
  | ProgressUpdate _ _ => Some s
  end.

Fixpoint deliver_all (es : list (event Thumb)) (s : app Thumb) : option (app Thumb) :=
  match es with
  | [] => Some s
  | e :: es' => s' ← deliver s e; deliver_all es' s'
  end.

End Analyzer.

(** ** Notions used to state the properties *)


Section Notions.

Context {Thumb : Type}.
Implicit Types (s : app Thumb) (m : gmap string image_record).

(** The list has no repetition (a directory listing) and every file of
    the list has its record. *)
Definition wf_store s : Prop :=
  NoDup (files s) ∧ ∀ f, f ∈ files s → is_Some (image_data s !! f).

(** The blur judgment of a record under threshold [th]. *)
Definition judge_blur (th : Z) (d : image_record) : image_record :=
  set_is_blur (float_lt_int (score d) th) d.

(** The tally of the incremental pass: unclassified records are left
    out, and an empty tally leaves the old counts in place. *)
Definition incremental_counts s m : gmap Z nat :=
  match filter (λ g, g ≠ -1) (all_group_ids m) with
  | [] => group_counts s
  | ids => tally ids
  end.

(** The group id the incremental pass gives the file at position [idx]. *)
Definition incremental_group_id s (idx : nat) (d : image_record) (g : Z) : Prop :=
  (idx = 0%nat ∧ g = 0) ∨
  (∃ p dp, (0 < idx)%nat ∧ files s !! (idx - 1)%nat = Some p ∧
     image_data s !! p = Some dp ∧
     g = if float_ge (sim_prev d) (percent (slider_sim s))
         then group_id dp else group_id dp + 1).

(** A record is not marked for both lists. *)
Definition marks_exclusive (d : image_record) : Prop :=
  ¬ (to_delete d = true ∧ to_select d = true).

(** Every record of [m'] is a record of [m] with the same marks. *)
Definition marks_kept m m' : Prop :=
  ∀ f d', m' !! f = Some d' →
    ∃ d, m !! f = Some d ∧ to_delete d' = to_delete d ∧ to_select d' = to_select d.

(** The record of [f] in [m'], if there is one, is the record of [f] in
    [m] up to its marks: same scores, same blur flag, same group id. *)
Definition analysis_kept (f : string) m m' : Prop :=
  ∀ d', m' !! f = Some d' →
    ∃ d, m !! f = Some d ∧ score d' = score d ∧ sim_prev d' = sim_prev d ∧
         is_blur d' = is_blur d ∧ group_id d' = group_id d.

End Notions.

(** What the analysis thread is expected to emit, stated from the list
    alone: for each file, the files before it decide the image its
    similarity is taken against. *)
Section AnalyzerNotions.

Context {Img Thumb : Type}.
Variable imread : string → option Img.
Variable make_thumbnail : Img → Thumb.
Variable sim_sample : Img → Img.
Variable compare_hist : Img → Img → float.
Variable calculate_blur : Img → float.

(** The image of the last file of [prefix] that could be read. *)
Definition last_loaded (prefix : list string) : option Img :=
  last (omap imread prefix).

(** Similarity of [img] to the last image read before it; 0 if none. *)
Definition expected_similarity (prefix : list string) (img : Img) : float :=
  match last_loaded prefix with
  | None => 0%float
  | Some p => compare_hist (sim_sample img) (sim_sample p)
  end.

(** Nothing for a file that cannot be read; a result and a progress
    signal for a file that can. [pre] are the files already passed. *)
Fixpoint expected_from (total : nat) (pre fs : list string) : list (event Thumb) :=
  match fs with
  | [] => []
  | f :: fs' =>
      match imread f with
      | None => []
      | Some img =>
          [ResultReady f (calculate_blur img) (expected_similarity pre img)
             (make_thumbnail img);
           ProgressUpdate (length pre + 1) total]
      end ++ expected_from total (pre ++ [f]) fs'
  end.

Definition expected_events (fs : list string) : list (event Thumb) :=
  expected_from (length fs) [] fs.

End AnalyzerNotions.

(** The batch move seen from the file system: which moves are tried, in
    which order, and which of them succeed. *)
#[global] Instance action_eq_dec : EqDecision action.
Proof. solve_decision. Defined.

Section CommitNotions.

Context {Thumb FS : Type}.
Variable shutil_move : string → string → FS → option FS.
Variable basename : string → string.
Variable path_join : string → string → string.

(** remove(identity): the list entry, the record and the thumbnail go. *)
Definition removed (f : string) (s : app Thumb) : app Thumb :=
  with_thumbnail_cache (delete f (thumbnail_cache s))
    (with_image_data (delete f (image_data s))
       (with_files (filter (λ x, x ≠ f) (files s)) s)).

Definition remove_all (fs : list string) (s : app Thumb) : app Thumb :=
  foldl (λ s f, removed f s) s fs.

(** Where a file marked [act] goes: the directory of the mark, under its
    own name. *)
Definition target (dd sd : string) (act : action) (f : string) : string :=
  path_join (match act with ActDelete => dd | ActSelect => sd end) (basename f).

(** The file system after the moves of [tp] have been tried in order. *)
Fixpoint fs_after (dd sd : string) (tp : list (string * action)) (w : FS) : FS :=
  match tp with
  | [] => w
  | (f, act) :: tp' =>
      match shutil_move f (target dd sd act f) w with
      | None => fs_after dd sd tp' w
      | Some w' => fs_after dd sd tp' w'
      end
  end.

(** For each item of [tp], whether its move succeeded. *)
Fixpoint outcomes (dd sd : string) (tp : list (string * action)) (w : FS)
    : list (string * action * bool) :=
  match tp with
  | [] => []
  | (f, act) :: tp' =>
      match shutil_move f (target dd sd act f) w with
      | None => (f, act, false) :: outcomes dd sd tp' w
      | Some w' => (f, act, true) :: outcomes dd sd tp' w'
      end
  end.

Definition moved_files (log : list (string * action * bool)) : list string :=
  (λ x, x.1.1) <$> filter (λ x, x.2 = true) log.

Definition failed_items (log : list (string * action * bool))
    : list (string * action) :=
  (λ x, x.1) <$> filter (λ x, x.2 = false) log.

Definition count_moved (act : action) (log : list (string * action * bool)) : nat :=
  length (filter (λ x, x.1.2 = act ∧ x.2 = true) log).

(** The mark of a record, if it has one (delete is looked at first). *)
Definition mark_of (d : image_record) : option action :=
  if to_delete d then Some ActDelete
  else if to_select d then Some ActSelect else None.

(** The marked files of the list, in list order, with their marks. *)
Definition marked_items (m : gmap string image_record) (fs : list string)
    : list (string * action) :=
  omap (λ f, d ← m !! f; act ← mark_of d; Some (f, act)) fs.

(** The store after a commit whose moves went as [log] says. *)
Definition committed (s : app Thumb) (log : list (string * action * bool))
    : app Thumb :=
  let s1 := clamp_current_idx (remove_all (moved_files log) s) in
  let s2 := if (stack_index s1 =? 0)%nat then show_current_image s1 else s1 in
  with_status_label
    (StatusDone (count_moved ActDelete log) (count_moved ActSelect log)) s2.

(** Moving every item of [tp], in order, into the directory of its mark
    under its own name; [None] as soon as one move raises. *)
Definition move_all (dd sd : string) (tp : list (string * action)) (w : FS)
    : option FS :=
  foldl (λ o x, o ≫= shutil_move x.1
                       (path_join (match x.2 with ActDelete => dd | ActSelect => sd end)
                          (basename x.1)))
    (Some w) tp.

(** The store a commit returns when it starts, the directories being
    there, on the file system [w2]: untouched without marks. *)
Definition commit_result (s : app Thumb) (w2 : FS) : app Thumb :=
  match marked_items (image_data s) (files s) with
  | [] => s
  | tp => committed s (outcomes (delete_path s) (select_path s) tp w2)
  end.

End CommitNotions.

(** The files the results of a list of signals are about. *)
Definition result_paths {Thumb} (es : list (event Thumb)) : list string :=
  omap (λ e, match e with ResultReady f _ _ _ => Some f | ProgressUpdate _ _ => None end) es.

(** Boolean form of [wf_store], to evaluate on a given store. *)
Definition wf_storeb {Thumb} (s : app Thumb) : bool :=
  bool_decide (NoDup (files s)) &&
  forallb (λ f, bool_decide (is_Some (image_data s !! f))) (files s).

(** ** Sample sessions

    A small folder, an analysis thread that cannot read b.jpg, and a file
    system that records the moves and refuses the ones from a locked
    source. *)
Module Sample.

Definition folder : list string := ["a.jpg"; "b.jpg"; "c.jpg"].

Definition fresh : app unit := init_app "Deleted_Images" "Selected_Images" folder.

(** Images are numbered; b.jpg does not load. *)
Definition imread (fpath : string) : option nat :=
  if decide (fpath = "a.jpg") then Some 1%nat
  else if decide (fpath = "c.jpg") then Some 3%nat
  else None.
Definition make_thumbnail (img : nat) : unit := tt.
Definition sim_sample (img : nat) : nat := img.
Definition compare_hist (a b : nat) : float := 0.9%float.
Definition calculate_blur (img : nat) : float := 200%float.
Definition is_running (i : nat) : bool := true.

Definition events : list (event unit) :=
  run imread make_thumbnail sim_sample compare_hist calculate_blur is_running folder.

(** The file system: the moves done so far, oldest first. *)
Definition fs := list (string * string).
Definition path_exists (p : string) (w : fs) : bool := true.
Definition makedirs (p : string) (w : fs) : option fs := Some w.
Definition shutil_move (locked : list string) (src dst : string) (w : fs) : option fs :=
  if bool_decide (src ∈ locked) then None else Some (w ++ [(src, dst)]).
Definition basename (p : string) : string := p.
Definition path_join (a b : string) : string := a +:+ "/" +:+ b.

Definition press (locked : list string) (s : app unit) (w : fs) (k : key) :=
  keyPressEvent path_exists makedirs (shutil_move locked) basename path_join s w k.

Definition commit (locked : list string) (s : app unit) (w : fs) :=
  execute_actions path_exists makedirs (shutil_move locked) basename path_join s w.

Definition reachable_from_fresh : app unit * fs → Prop :=
  reachable path_exists makedirs (shutil_move []) basename path_join
    "Deleted_Images" "Selected_Images" folder [].

(** The three stores of scenario A: similarities -, 0.95, 0.40. *)
Definition scenario_a : option (app unit) :=
  s ← handle_analysis_result fresh "a.jpg" 200%float 0%float tt;
  s ← handle_analysis_result s "b.jpg" 200%float 0.95%float tt;
  handle_analysis_result s "c.jpg" 200%float 0.40%float tt.

Definition analysed : app unit := default fresh scenario_a.

(** a.jpg and c.jpg marked for deletion, b.jpg selected. *)
Definition marked : app unit :=
  with_image_data
    (alter (set_to_delete true) "c.jpg"
       (alter (set_to_select true) "b.jpg"
          (alter (set_to_delete true) "a.jpg" (image_data analysed))))
    analysed.

End Sample.

(** ** Drawing decisions

    What draw_hud_on_pixmap and build_grid_view decide before they paint:
    the border, the status text, and the cell of each thumbnail. *)



Record grid_cell (Thumb : Type) := GridCell {
  cell_path : string;
  cell_pixmap : Thumb;
  cell_style : string;
  cell_index : nat;                (* the index its click handler passes on *)
  cell_row : nat;
  cell_col : nat
}.
Arguments GridCell {Thumb}.
Arguments cell_path {Thumb}.
Arguments cell_pixmap {Thumb}.
Arguments cell_style {Thumb}.
Arguments cell_index {Thumb}.
Arguments cell_row {Thumb}.
Arguments cell_col {Thumb}.

Section Drawing.

Context {Thumb : Type}.


(** *** build_grid_view
    [blank] is the QPixmap(200, 150) shown for a file without thumbnail;
    the cells come in the order they are added to the layout, and [i] is
    the position [enumerate] has reached. *)
Fixpoint build_grid_from (blank : Thumb) (s : app Thumb) (i : nat) (fs : list string)
    : option (list (grid_cell Thumb)) :=
  match fs with
  | [] => Some []
  | fpath :: fs' =>
      let pixmap := default blank (thumbnail_cache s !! fpath) in
      style ← get_grid_style s fpath;
      let col_count := 5%nat in
      rest ← build_grid_from blank s (S i) fs';
      Some (GridCell fpath pixmap style i (i / col_count)%nat (i mod col_count)%nat
              :: rest)
  end.

Definition build_grid_view (blank : Thumb) (s : app Thumb)
    : option (list (grid_cell Thumb)) :=
  build_grid_from blank s 0 (files s).


End Drawing.

(** * Properties *)

(** ** Tallies *)







(** ** The two classification passes *)

Section Classifier.

Context {Thumb : Type}.
Implicit Types (s : app Thumb) (m : gmap string image_record).

Lemma judge_blur_idem th d : judge_blur th (judge_blur th d) = judge_blur th d.
Proof. by destruct d. Qed.

Lemma list_index_elem f (l : list string) : f ∈ l → is_Some (list_index f l).
Proof.
  induction l as [|y l IH]; intros Hin; [by apply elem_of_nil in Hin|].
  simpl. destruct (decide (y = f)); [by eexists|].
  apply elem_of_cons in Hin as [->|Hin]; [done|].
  destruct (IH Hin) as [i ->]. by eexists.
Qed.

Lemma list_index_lookup f (l : list string) i :
  list_index f l = Some i → l !! i = Some f.
Proof.
  revert i. induction l as [|y l IH]; intros i; [done|].
  simpl. destruct (decide (y = f)) as [->|].
  - by intros [= <-].
  - destruct (list_index f l) as [j|]; [|done].
    intros [= <-]. by apply IH.
Qed.

Lemma apply_judgment_logic_false s f d :
  image_data s !! f = Some d →
  apply_judgment_logic s f false
  = Some (with_image_data (<[f := judge_blur (slider_blur s) d]> (image_data s)) s).
Proof. intros Hd. unfold apply_judgment_logic. by rewrite Hd. Qed.

(** Step 1 of the full pass. *)
Lemma refresh_blur_spec (fs : list string) s :
  (∀ f, f ∈ fs → is_Some (image_data s !! f)) →
  ∃ m', refresh_blur fs s = Some (with_image_data m' s) ∧
    ∀ f, m' !! f =
         (λ d, if decide (f ∈ fs) then judge_blur (slider_blur s) d else d)
           <$> image_data s !! f.
Proof.
  revert s. induction fs as [|f0 fs IH]; intros s Hall.
  - exists (image_data s). split; [by destruct s|].
    intros f. destruct (image_data s !! f); simpl; [|done].
    destruct (decide (f ∈ [])) as [Hin|]; [by apply elem_of_nil in Hin|done].
  - destruct (Hall f0) as [d0 Hd0]; [by left|].
    simpl. rewrite (apply_judgment_logic_false _ _ _ Hd0). simpl.
    set (s1 := with_image_data _ s).
    destruct (IH s1) as (m' & Hrun & Hm').
    { intros f Hf. simpl. destruct (decide (f0 = f)) as [->|Hne].
      - rewrite lookup_insert_eq. by eexists.
      - rewrite lookup_insert_ne by done. apply Hall. by right. }
    exists m'. split; [by rewrite Hrun|].
    intros f. rewrite Hm'. simpl.
    destruct (decide (f0 = f)) as [<-|Hne].
    + rewrite lookup_insert_eq, Hd0. simpl.
      destruct (decide (f0 ∈ f0 :: fs)) as [_|Hn]; [|by exfalso; apply Hn; left].
      destruct (decide (f0 ∈ fs)); by rewrite ?judge_blur_idem.
    + rewrite lookup_insert_ne by done.
      destruct (image_data s !! f); simpl; [|done].
      destruct (decide (f ∈ fs)) as [Hin|Hin].
      * destruct (decide (f ∈ f0 :: fs)) as [_|Hn]; [done|by exfalso; apply Hn; right].
      * destruct (decide (f ∈ f0 :: fs)) as [Hc|_]; [|done].
        apply elem_of_cons in Hc as [->|]; done.
Qed.

(** Step 2 of the full pass: the running group counter.  [fp] is the
    file before [fs], already at group [curr]. *)
Lemma regroup_spec (th : float) (fs : list string) :
  ∀ (curr : Z) m (fp : string) (dp : image_record),
    NoDup (fp :: fs) →
    m !! fp = Some dp → group_id dp = curr →
    (∀ f, f ∈ fs → is_Some (m !! f)) →
    ∃ m', regroup th fs curr m = Some m' ∧
      (∀ f, f ∉ fs → m' !! f = m !! f) ∧
      (∀ f d, f ∈ fs → m !! f = Some d → ∃ g, m' !! f = Some (set_group_id g d)) ∧
      (∀ i f g, (fp :: fs) !! i = Some f → (fp :: fs) !! S i = Some g →
         ∃ df dg, m' !! f = Some df ∧ m' !! g = Some dg ∧
           group_id dg = if float_ge (sim_prev dg) th
                         then group_id df else group_id df + 1).
Proof.
  induction fs as [|f0 fs IH]; intros curr m fp dp Hnd Hfp Hcurr Hall.
  - exists m. split; [done|]. split; [done|]. split.
    + intros f d Hin. by apply elem_of_nil in Hin.
    + intros [|i] f g ? Hg; simpl in Hg; done.
  - destruct (Hall f0) as [d0 Hd0]; [by left|].
    apply NoDup_cons in Hnd as [Hfp_notin Hnd].
    pose proof Hnd as Hnd'. apply NoDup_cons in Hnd' as [Hf0_notin _].
    assert (Hne : f0 ≠ fp).
    { intros ->. apply Hfp_notin. by left. }
    simpl. rewrite Hd0. simpl.
    set (c' := if float_ge (sim_prev d0) th then curr else curr + 1).
    set (m1 := <[f0 := set_group_id c' d0]> m).
    assert (Hstep : (if float_ge (sim_prev d0) th
                     then regroup th fs curr (<[f0:=set_group_id curr d0]> m)
                     else regroup th fs (curr + 1)
                            (<[f0:=set_group_id (curr + 1) d0]> m))
                    = regroup th fs c' m1).
    { unfold m1, c'. by destruct (float_ge (sim_prev d0) th). }
    rewrite Hstep.
    destruct (IH c' m1 f0 (set_group_id c' d0)) as (m' & Hrun & Hout & Hin & Hadj);
      [done|by apply lookup_insert_eq|done| |].
    { intros f Hf. unfold m1. destruct (decide (f0 = f)) as [->|Hn].
      - rewrite lookup_insert_eq. by eexists.
      - rewrite lookup_insert_ne by done. apply Hall. by right. }
    exists m'. split; [done|].
    assert (Hm'f0 : m' !! f0 = Some (set_group_id c' d0)).
    { rewrite Hout by done. apply lookup_insert_eq. }
    split; [|split].
    + intros f Hf. rewrite not_elem_of_cons in Hf. destruct Hf as [Hf1 Hf2].
      rewrite Hout by done. unfold m1. by rewrite lookup_insert_ne.
    + intros f d Hf Hd. apply elem_of_cons in Hf as [->|Hf].
      * rewrite Hd0 in Hd. injection Hd as <-. by exists c'.
      * apply (Hin f d Hf). unfold m1. rewrite lookup_insert_ne; [done|].
        intros ->. done.
    + intros [|i] f g Hf Hg.
      * simpl in Hf, Hg. injection Hf as <-. injection Hg as <-.
        exists dp, (set_group_id c' d0). split; [|split; [done|]].
        -- rewrite Hout.
           ++ unfold m1. by rewrite lookup_insert_ne.
           ++ intros Hc. apply Hfp_notin. by right.
        -- simpl. unfold c'. rewrite Hcurr.
           by destruct (float_ge (sim_prev d0) th).
      * apply (Hadj i f g); done.
Qed.

(** The full pass, as a whole. *)
Lemma refresh_spec s :
  wf_store s →
  ∃ m', refresh_judgments_instantly s
        = Some (with_group_counts (tally (all_group_ids m')) (with_image_data m' s)) ∧
    (∀ f, f ∉ files s → m' !! f = image_data s !! f) ∧
    (∀ f d, f ∈ files s → image_data s !! f = Some d →
       ∃ g, m' !! f = Some (set_group_id g (judge_blur (slider_blur s) d))) ∧
    (∀ f0 rest, files s = f0 :: rest → ∃ d0, m' !! f0 = Some d0 ∧ group_id d0 = 0) ∧
    (∀ i f g, files s !! i = Some f → files s !! S i = Some g →
       ∃ df dg, m' !! f = Some df ∧ m' !! g = Some dg ∧
         group_id dg = if float_ge (sim_prev dg) (percent (slider_sim s))
                       then group_id df else group_id df + 1).
Proof.
  intros [Hnd Hall].
  destruct (refresh_blur_spec (files s) s Hall) as (m1 & Hblur & Hm1).
  unfold refresh_judgments_instantly. rewrite Hblur. simpl.
  destruct (files s) as [|f0 rest] eqn:Hfiles.
  - simpl. exists m1. split; [done|]. split; [|split; [|split]].
    + intros f _. rewrite Hm1. destruct (image_data s !! f); simpl; [|done].
      destruct (decide (f ∈ [])) as [Hin|]; [by apply elem_of_nil in Hin|done].
    + intros f d Hin. by apply elem_of_nil in Hin.
    + done.
    + intros [|i] f g Hf; done.
  - destruct (Hall f0) as [d0 Hd0]; [by left|].
    assert (Hm1f0 : m1 !! f0 = Some (judge_blur (slider_blur s) d0)).
    { rewrite Hm1, Hd0. simpl.
      destruct (decide (f0 ∈ f0 :: rest)) as [_|Hn]; [done|by exfalso; apply Hn; left]. }
    rewrite Hm1f0. simpl. rewrite drop_0.
    set (dp := set_group_id 0 (judge_blur (slider_blur s) d0)).
    set (m0 := <[f0 := dp]> m1).
    pose proof Hnd as Hnd'. apply NoDup_cons in Hnd' as [Hf0 _].
    destruct (regroup_spec (percent (slider_sim s)) rest 0 m0 f0 dp)
      as (m' & Hrun & Hout & Hin & Hadj); [done|by apply lookup_insert_eq|done| |].
    { intros f Hf. unfold m0. rewrite lookup_insert_ne by (intros ->; done).
      rewrite Hm1. destruct (Hall f) as [d ->]; [by right|]. by eexists. }
    rewrite Hrun. simpl. exists m'. split; [done|].
    assert (Hm'f0 : m' !! f0 = Some dp).
    { rewrite Hout by done. apply lookup_insert_eq. }
    split; [|split; [|split]].
    + intros f Hf. rewrite not_elem_of_cons in Hf. destruct Hf as [Hf1 Hf2].
      rewrite Hout by done. unfold m0. rewrite lookup_insert_ne by done.
      rewrite Hm1. destruct (image_data s !! f); simpl; [|done].
      destruct (decide (f ∈ f0 :: rest)) as [Hc|_]; [|done].
      apply elem_of_cons in Hc as [->|]; done.
    + intros f d Hf Hd. apply elem_of_cons in Hf as [->|Hf].
      * rewrite Hd0 in Hd. injection Hd as <-. by exists 0.
      * apply (Hin f _ Hf). unfold m0.
        rewrite lookup_insert_ne by (intros ->; done).
        rewrite Hm1, Hd. simpl.
        destruct (decide (f ∈ f0 :: rest)) as [_|Hn]; [done|by exfalso; apply Hn; right].
    + intros f0' rest' [= <- <-]. by exists dp.
    + done.
Qed.

(** After the full pass no file of the list is left at the sentinel:
    group ids start at 0 and never go down. *)
Lemma refresh_group_ids_nonneg s m' :
  (∀ f0 rest, files s = f0 :: rest → ∃ d0, m' !! f0 = Some d0 ∧ group_id d0 = 0) →
  (∀ i f g, files s !! i = Some f → files s !! S i = Some g →
     ∃ df dg, m' !! f = Some df ∧ m' !! g = Some dg ∧
       group_id dg = if float_ge (sim_prev dg) (percent (slider_sim s))
                     then group_id df else group_id df + 1) →
  ∀ i f, files s !! i = Some f → ∃ d, m' !! f = Some d ∧ 0 ≤ group_id d.
Proof.
  intros Hfirst Hadj i. induction i as [|i IH]; intros f Hf.
  - destruct (files s) as [|f0 rest] eqn:Hfs; [done|].
    injection Hf as ->. destruct (Hfirst f rest eq_refl) as (d0 & Hd0 & Hg).
    exists d0. split; [done|lia].
  - destruct (files s !! i) as [fi|] eqn:Hfi.
    + destruct (IH fi eq_refl) as (di & Hdi & Hgi).
      destruct (Hadj i fi f Hfi Hf) as (df & dg & Hdf & Hdg & Hg).
      exists dg. split; [done|]. rewrite Hdi in Hdf. injection Hdf as <-.
      rewrite Hg. destruct (float_ge _ _); lia.
    + apply lookup_ge_None in Hfi. apply lookup_lt_Some in Hf. lia.
Qed.

(** *** The incremental pass *)

Lemma list_index_first f (l : list string) i j :
  list_index f l = Some i → (j < i)%nat → l !! j ≠ Some f.
Proof.
  revert i j. induction l as [|y l IH]; intros i j; [done|].
  simpl. destruct (decide (y = f)) as [->|Hne].
  - intros [= <-]. lia.
  - destruct (list_index f l) as [k|] eqn:Hk; [|done].
    intros [= <-] Hj. destruct j as [|j]; simpl.
    + congruence.
    + apply (IH k); [done|lia].
Qed.

Lemma apply_judgment_logic_true s f d idx g :
  image_data s !! f = Some d →
  list_index f (files s) = Some idx →
  incremental_group_id s idx d g →
  let m' := <[f := set_group_id g (judge_blur (slider_blur s) d)]> (image_data s) in
  apply_judgment_logic s f true
  = Some (with_group_counts (incremental_counts s m') (with_image_data m' s)).
Proof.
  intros Hd Hidx Hg. unfold apply_judgment_logic. rewrite Hd. simpl.
  rewrite Hidx. simpl.
  destruct Hg as [[-> ->]|(p & dp & Hpos & Hp & Hdp & ->)].
  - simpl. rewrite insert_insert_eq. unfold incremental_counts.
    by destruct (filter _ _).
  - assert (Hlt : (0 <? idx)%nat = true) by (apply Nat.ltb_lt; lia).
    rewrite Hlt, Hp. simpl.
    assert (Hpf : f ≠ p).
    { intros <-. apply (list_index_first _ _ _ (idx - 1)%nat Hidx); [lia|done]. }
    rewrite lookup_insert_ne by done. rewrite Hdp. simpl.
    destruct (float_ge (sim_prev d) (percent (slider_sim s))); simpl;
      rewrite insert_insert_eq; unfold incremental_counts;
      by destruct (filter _ _).
Qed.

(** For a file of a well-formed store the incremental pass has a group
    id to give. *)
Lemma incremental_group_id_total s f d :
  wf_store s → f ∈ files s →
  ∃ idx g, list_index f (files s) = Some idx ∧ incremental_group_id s idx d g.
Proof.
  intros [_ Hall] Hin.
  destruct (list_index_elem f (files s) Hin) as [idx Hidx].
  exists idx. destruct idx as [|idx].
  - exists 0. split; [done|]. by left.
  - pose proof (list_index_lookup _ _ _ Hidx) as Hl.
    apply lookup_lt_Some in Hl.
    destruct (lookup_lt_is_Some_2 (files s) idx) as [p Hp]; [lia|].
    destruct (Hall p) as [dp Hdp]; [by eapply list_elem_of_lookup_2|].
    eexists. split; [done|]. right. exists p, dp.
    split; [lia|]. split; [|done].
    replace (S idx - 1)%nat with idx by lia. done.
Qed.

Lemma handle_analysis_result_spec s f d idx g blur sim (thumb : Thumb) :
  image_data s !! f = Some d →
  list_index f (files s) = Some idx →
  incremental_group_id s idx (set_sim_prev sim (set_score blur d)) g →
  is_Some (files s !! current_idx s) →
  let d' := set_group_id g
              (judge_blur (slider_blur s) (set_sim_prev sim (set_score blur d))) in
  let m' := <[f := d']> (image_data s) in
  handle_analysis_result s f blur sim thumb
  = Some (with_group_counts (incremental_counts s m')
            (with_image_data m'
               (with_thumbnail_cache (<[f := thumb]> (thumbnail_cache s)) s))).
Proof.
  intros Hd Hidx Hg [fc Hfc]. unfold handle_analysis_result.
  rewrite Hd. simpl. rewrite lookup_insert_eq. simpl.
  rewrite insert_insert_eq.
  set (d2 := set_sim_prev sim (set_score blur d)).
  set (s2 := with_thumbnail_cache _ _).
  rewrite (apply_judgment_logic_true s2 f d2 idx g).
  - simpl. rewrite Hfc. simpl. by rewrite insert_insert_eq.
  - apply lookup_insert_eq.
  - done.
  - destruct Hg as [?|(p & dp & Hpos & Hp & Hdp & ->)]; [by left|].
    right. exists p, dp. split; [done|]. split; [done|]. split; [|done].
    simpl. rewrite lookup_insert_ne; [done|].
    intros <-. apply (list_index_first _ _ _ (idx - 1)%nat Hidx); [lia|done].
Qed.

End Classifier.

(** ** Full re-classification *)

(** C1. Full re-classification (refresh_judgments_instantly) assigns the
    group ids in one pass over the stored file order: the first file gets
    group 0, and every later file gets the group of the file before it when
    its stored similarity is at least the threshold, and that group plus
    one otherwise; so two neighbours share a group exactly when the stored
    similarity of the second reaches the threshold.  The pass returns for
    every store whose list has no repetition and whose files all have a
    record. *)
Theorem refresh_assigns_groups_sequentially {Thumb} (s : app Thumb) :
  wf_store s →
  ∃ s', refresh_judgments_instantly s = Some s' ∧
    files s' = files s ∧
    (∀ f0 rest, files s = f0 :: rest →
       ∃ d0, image_data s' !! f0 = Some d0 ∧ group_id d0 = 0) ∧
    (∀ i f g, files s !! i = Some f → files s !! S i = Some g →
       ∃ df dg dg0,
         image_data s' !! f = Some df ∧ image_data s' !! g = Some dg ∧
         image_data s !! g = Some dg0 ∧ sim_prev dg = sim_prev dg0 ∧
         group_id dg = (if float_ge (sim_prev dg0) (percent (slider_sim s))
                        then group_id df else group_id df + 1) ∧
         (group_id dg = group_id df ↔
          float_ge (sim_prev dg0) (percent (slider_sim s)) = true)).
Proof.
  intros Hwf.
  destruct (refresh_spec s Hwf) as (m' & Hrun & _ & Hin & Hfirst & Hadj).
  eexists. split; [exact Hrun|]. simpl. split; [done|]. split; [done|].
  intros i f g Hf Hg.
  destruct (Hadj i f g Hf Hg) as (df & dg & Hdf & Hdg & Hgid).
  destruct Hwf as [_ Hall].
  destruct (Hall g) as [dg0 Hdg0]; [by eapply list_elem_of_lookup_2|].
  destruct (Hin g dg0) as [x Hx]; [by eapply list_elem_of_lookup_2|done|].
  rewrite Hdg in Hx. injection Hx as ->.
  exists df, (set_group_id x (judge_blur (slider_blur s) dg0)), dg0.
  split; [done|]. split; [done|]. split; [done|]. split; [done|].
  simpl in Hgid. split; [done|].
  simpl. rewrite Hgid.
  destruct (float_ge (sim_prev dg0) (percent (slider_sim s))); split; intros; try done; lia.
Qed.

(** C3. In both passes the blur flag is the strict comparison of the
    stored score with the blur threshold: after a result is ingested
    (handle_analysis_result, which runs the incremental pass) the record
    of that file has is_blur = (score < blur_threshold), and after the full
    pass every file of the list has it, the scores being untouched.  With a
    score of 150, a pass at threshold 100 gives is_blur = false and moving
    the slider to 200 gives is_blur = true, the score still being 150. *)
Theorem is_blur_is_strict_comparison {Thumb} :
  (∀ (s : app Thumb) f blur sim thumb,
     wf_store s → f ∈ files s → is_Some (files s !! current_idx s) →
     ∃ s' d', handle_analysis_result s f blur sim thumb = Some s' ∧
       slider_blur s' = slider_blur s ∧
       image_data s' !! f = Some d' ∧ score d' = blur ∧
       is_blur d' = float_lt_int (score d') (slider_blur s')) ∧
  (∀ (s : app Thumb),
     wf_store s →
     ∃ s', refresh_judgments_instantly s = Some s' ∧
       slider_blur s' = slider_blur s ∧
       ∀ f d, f ∈ files s → image_data s !! f = Some d →
         ∃ d', image_data s' !! f = Some d' ∧ score d' = score d ∧
           is_blur d' = float_lt_int (score d') (slider_blur s')) ∧
  (∀ (s : app Thumb) f d,
     wf_store s → f ∈ files s → image_data s !! f = Some d →
     score d = 150%float →
     ∃ s1 d1 s2 d2,
       refresh_judgments_instantly (with_slider_blur 100 s) = Some s1 ∧
       image_data s1 !! f = Some d1 ∧ is_blur d1 = false ∧
       set_slider_blur s1 200 = Some s2 ∧
       image_data s2 !! f = Some d2 ∧ is_blur d2 = true ∧
       score d2 = 150%float).
Proof.
  split; [|split].
  - intros s f blur sim thumb Hwf Hin Hcur.
    pose proof Hwf as [_ Hall]. destruct (Hall f Hin) as [d Hd].
    destruct (incremental_group_id_total s f
                (set_sim_prev sim (set_score blur d)) Hwf Hin)
      as (idx & g & Hidx & Hg).
    eexists _, _. split; [by apply (handle_analysis_result_spec s f d idx g)|].
    simpl. split; [done|]. split; [by apply lookup_insert_eq|]. done.
  - intros s Hwf.
    destruct (refresh_spec s Hwf) as (m' & Hrun & _ & Hin & _).
    eexists. split; [exact Hrun|]. simpl. split; [done|].
    intros f d Hf Hd. destruct (Hin f d Hf Hd) as [g Hg].
    eexists. split; [exact Hg|]. done.
  - intros s f d Hwf Hf Hd Hscore.
    destruct (refresh_spec (with_slider_blur 100 s)) as (m1 & Hrun1 & _ & Hin1 & _).
    { exact Hwf. }
    destruct (Hin1 f d Hf Hd) as [g1 Hg1].
    set (s1 := with_group_counts _ _) in Hrun1.
    assert (Hwf1 : wf_store (with_slider_blur 200 s1)).
    { destruct Hwf as [Hnd Hall]. split; [done|].
      intros f' Hf'. simpl in *. destruct (Hall f' Hf') as [d' Hd'].
      destruct (Hin1 f' d' Hf' Hd') as [g' Hg']. by eexists. }
    destruct (refresh_spec _ Hwf1) as (m2 & Hrun2 & _ & Hin2 & _).
    destruct (Hin2 f _ Hf Hg1) as [g2 Hg2].
    eexists s1, _, _, _. split; [exact Hrun1|].
    split; [exact Hg1|]. split.
    { simpl. rewrite Hscore. by vm_compute. }
    split.
    { unfold set_slider_blur. simpl. exact Hrun2. }
    split; [exact Hg2|]. split; [|done].
    simpl. rewrite Hscore. by vm_compute.
Qed.

Lemma wf_storeb_correct {Thumb} (s : app Thumb) : wf_storeb s = true → wf_store s.
Proof.
  unfold wf_storeb, wf_store. intros H.
  apply andb_prop in H as [Hnd Hall]. split.
  - by apply bool_decide_eq_true in Hnd.
  - intros f Hf. rewrite forallb_forall in Hall.
    apply list_elem_of_In in Hf. specialize (Hall f Hf).
    by apply bool_decide_eq_true in Hall.
Qed.

Lemma refresh_assigns_groups_sequentially_witness :
  ∃ s', refresh_judgments_instantly Sample.analysed = Some s' ∧
    files s' = files Sample.analysed ∧
    (∀ f0 rest, files Sample.analysed = f0 :: rest →
       ∃ d0, image_data s' !! f0 = Some d0 ∧ group_id d0 = 0) ∧
    (∀ i f g, files Sample.analysed !! i = Some f → files Sample.analysed !! S i = Some g →
       ∃ df dg dg0,
         image_data s' !! f = Some df ∧ image_data s' !! g = Some dg ∧
         image_data Sample.analysed !! g = Some dg0 ∧ sim_prev dg = sim_prev dg0 ∧
         group_id dg = (if float_ge (sim_prev dg0) (percent (slider_sim Sample.analysed))
                        then group_id df else group_id df + 1) ∧
         (group_id dg = group_id df ↔
          float_ge (sim_prev dg0) (percent (slider_sim Sample.analysed)) = true)).
Proof.
  apply (refresh_assigns_groups_sequentially Sample.analysed).
  apply wf_storeb_correct. vm_compute. reflexivity.
Defined.

Lemma is_blur_is_strict_comparison_witness :
  (∃ s' d', handle_analysis_result Sample.fresh "a.jpg" 120%float 0%float tt = Some s' ∧
     slider_blur s' = slider_blur Sample.fresh ∧
     image_data s' !! "a.jpg" = Some d' ∧ score d' = 120%float ∧
     is_blur d' = float_lt_int (score d') (slider_blur s')) ∧
  (∃ s', refresh_judgments_instantly Sample.analysed = Some s' ∧
     slider_blur s' = slider_blur Sample.analysed ∧
     ∀ f d, f ∈ files Sample.analysed → image_data Sample.analysed !! f = Some d →
       ∃ d', image_data s' !! f = Some d' ∧ score d' = score d ∧
         is_blur d' = float_lt_int (score d') (slider_blur s')) ∧
  (∃ s1 d1 s2 d2,
     refresh_judgments_instantly
       (with_slider_blur 100
          (with_image_data (<["a.jpg" := set_score 150%float initial_record]>
                              (image_data Sample.fresh)) Sample.fresh)) = Some s1 ∧
     image_data s1 !! "a.jpg" = Some d1 ∧ is_blur d1 = false ∧
     set_slider_blur s1 200 = Some s2 ∧
     image_data s2 !! "a.jpg" = Some d2 ∧ is_blur d2 = true ∧
     score d2 = 150%float).
Proof.
  split; [|split].
  - apply (proj1 (@is_blur_is_strict_comparison unit) Sample.fresh "a.jpg").
    + apply wf_storeb_correct. vm_compute. reflexivity.
    + vm_compute. left.
    + vm_compute. eexists. reflexivity.
  - apply (proj1 (proj2 (@is_blur_is_strict_comparison unit)) Sample.analysed).
    apply wf_storeb_correct. vm_compute. reflexivity.
  - apply (proj2 (proj2 (@is_blur_is_strict_comparison unit))
             (with_image_data (<["a.jpg" := set_score 150%float initial_record]>
                                 (image_data Sample.fresh)) Sample.fresh)
             "a.jpg" (set_score 150%float initial_record)).
    + apply wf_storeb_correct. vm_compute. reflexivity.
    + vm_compute. left.
    + vm_compute. reflexivity.
    + reflexivity.
Defined.

(** ** Records that were never analysed *)

Lemma float_lt_int_zero (th : Z) :
  0 ≤ th ≤ 500 → float_lt_int 0%float th = bool_decide (1 ≤ th).
Proof.
  intros Hth.
  assert (Hall : forallb (λ n, Bool.eqb (float_lt_int 0%float (Z.of_nat n))
                                 (bool_decide (1 ≤ Z.of_nat n)))
                   (seq 0 501) = true) by (vm_compute; reflexivity).
  rewrite forallb_forall in Hall.
  specialize (Hall (Z.to_nat th)).
  rewrite Z2Nat.id in Hall by lia.
  apply Bool.eqb_prop, Hall, in_seq. lia.
Qed.

Lemma init_app_image_data {Thumb} dd sd fs :
  image_data (@init_app Thumb dd sd fs)
  = list_to_map ((λ f, (f, initial_record)) <$> fs).
Proof. unfold init_app, show_current_image. simpl. by destruct fs. Qed.

Lemma init_app_record {Thumb} dd sd fs f d :
  image_data (@init_app Thumb dd sd fs) !! f = Some d → d = initial_record.
Proof.
  rewrite init_app_image_data. intros H.
  apply elem_of_list_to_map_2 in H.
  apply list_elem_of_fmap in H as (f' & Heq & _). by injection Heq.
Qed.

(** C2 does not hold: a threshold change (here the similarity slider moved
    to 80) runs the blur comparison on every file of the list, so a.jpg,
    whose scores are still the initial ones, is flagged blur at the default
    blur threshold 150. *)
Lemma unanalysed_record_flagged_blur :
  ∃ s' d, set_slider_sim Sample.fresh 80 = Some s' ∧
    image_data Sample.fresh !! "a.jpg" = Some initial_record ∧
    image_data s' !! "a.jpg" = Some d ∧
    score d = score initial_record ∧ sim_prev d = sim_prev initial_record ∧
    0 ≤ slider_blur s' ≤ 500 ∧
    is_blur d = true.
Proof.
  eexists _, _. split; [vm_compute; reflexivity|].
  split; [vm_compute; reflexivity|].
  split; [vm_compute; reflexivity|].
  vm_compute. repeat split; congruence.
Qed.

(** ** Group counts *)





(** Scenario A of the specification: similarities -, 0.95, 0.40 at the
    default threshold 0.85 give the groups 0, 0, 1 and the counts
    {0: 2, 1: 1}; the first two files are a burst, the third is not. *)
Example scenario_a_groups :
  (λ f, group_id <$> image_data Sample.analysed !! f) <$> files Sample.analysed
    = [Some 0; Some 0; Some 1] ∧
  group_counts Sample.analysed !! 0 = Some 2%nat ∧
  group_counts Sample.analysed !! 1 = Some 1%nat ∧
  (λ f, is_burst Sample.analysed <$> image_data Sample.analysed !! f)
    <$> files Sample.analysed = [Some true; Some true; Some false].
Proof. vm_compute. repeat split; reflexivity. Qed.

(** ** Ingestion next to a file that was never classified *)

(** C10. The incremental pass reads the group id currently stored for the
    list predecessor.  When that predecessor is still at the initial -1 and
    the ingested similarity reaches the threshold, the ingested record gets
    group id -1 although its scores are now stored.  This happens in the
    sample session, where b.jpg cannot be read and c.jpg is similar to
    a.jpg.  The next full pass leaves no file of the list below 0. *)
Theorem ingest_inherits_sentinel_group {Thumb} :
  (∀ (s : app Thumb) f idx p d dp blur sim thumb,
     image_data s !! f = Some d →
     list_index f (files s) = Some idx → (0 < idx)%nat →
     files s !! (idx - 1)%nat = Some p →
     image_data s !! p = Some dp → group_id dp = -1 →
     float_ge sim (percent (slider_sim s)) = true →
     is_Some (files s !! current_idx s) →
     ∃ s' d', handle_analysis_result s f blur sim thumb = Some s' ∧
       image_data s' !! f = Some d' ∧
       score d' = blur ∧ sim_prev d' = sim ∧ group_id d' = -1) ∧
  (∃ s' d', Sample.imread "b.jpg" = None ∧
     deliver_all Sample.events Sample.fresh = Some s' ∧
     image_data s' !! "c.jpg" = Some d' ∧
     score d' = 200%float ∧ group_id d' = -1) ∧
  (∀ (s : app Thumb),
     wf_store s →
     ∃ s', refresh_judgments_instantly s = Some s' ∧
       ∀ f, f ∈ files s → ∃ d, image_data s' !! f = Some d ∧ 0 ≤ group_id d).
Proof.
  split; [|split].
  - intros s f idx p d dp blur sim thumb Hd Hidx Hpos Hp Hdp Hgp Hge Hcur.
    eexists _, _. split.
    + apply (handle_analysis_result_spec s f d idx (-1)); [done|done| |done].
      right. exists p, dp. split; [done|]. split; [done|]. split; [done|].
      simpl. by rewrite Hge, Hgp.
    + simpl. split; [by apply lookup_insert_eq|]. done.
  - eexists _, _. split; [reflexivity|].
    split; [vm_compute; reflexivity|].
    split; [vm_compute; reflexivity|].
    split; reflexivity.
  - intros s Hwf.
    destruct (refresh_spec s Hwf) as (m' & Hrun & _ & _ & Hfirst & Hadj).
    eexists. split; [exact Hrun|]. simpl.
    intros f Hf. apply list_elem_of_lookup in Hf as [i Hi].
    by apply (refresh_group_ids_nonneg s m' Hfirst Hadj i f).
Qed.

Lemma ingest_inherits_sentinel_group_witness :
  (∃ s' d', handle_analysis_result
              (default Sample.fresh
                 (handle_analysis_result Sample.fresh "a.jpg" 200%float 0%float tt))
              "c.jpg" 200%float 0.9%float tt = Some s' ∧
     image_data s' !! "c.jpg" = Some d' ∧
     score d' = 200%float ∧ sim_prev d' = 0.9%float ∧ group_id d' = -1) ∧
  (∃ s', refresh_judgments_instantly Sample.analysed = Some s' ∧
     ∀ f, f ∈ files Sample.analysed →
       ∃ d, image_data s' !! f = Some d ∧ 0 ≤ group_id d).
Proof.
  split.
  - apply (proj1 (@ingest_inherits_sentinel_group unit) _ "c.jpg" 2%nat "b.jpg"
             initial_record initial_record).
    + vm_compute. reflexivity.
    + vm_compute. reflexivity.
    + lia.
    + vm_compute. reflexivity.
    + vm_compute. reflexivity.
    + reflexivity.
    + vm_compute. reflexivity.
    + vm_compute. eexists. reflexivity.
  - apply (proj2 (proj2 (@ingest_inherits_sentinel_group unit)) Sample.analysed).
    apply wf_storeb_correct. vm_compute. reflexivity.
Defined.

(** ** Operator marks *)

Section Marks.

Context {Thumb FS : Type}.
Variable path_exists : string → FS → bool.
Variable makedirs : string → FS → option FS.
Variable shutil_move : string → string → FS → option FS.
Variable basename : string → string.
Variable path_join : string → string → string.
Implicit Types (s : app Thumb) (m : gmap string image_record).

Lemma marks_kept_refl m : marks_kept m m.
Proof. intros f d Hd. by exists d. Qed.

Lemma marks_kept_trans m1 m2 m3 :
  marks_kept m1 m2 → marks_kept m2 m3 → marks_kept m1 m3.
Proof.
  intros H12 H23 f d3 Hd3.
  destruct (H23 f d3 Hd3) as (d2 & Hd2 & -> & ->).
  destruct (H12 f d2 Hd2) as (d1 & Hd1 & -> & ->). by exists d1.
Qed.

Lemma marks_kept_insert m f d d1 :
  m !! f = Some d → to_delete d1 = to_delete d → to_select d1 = to_select d →
  marks_kept m (<[f := d1]> m).
Proof.
  intros Hd Hdel Hsel f' d' Hd'. destruct (decide (f = f')) as [<-|Hne].
  - rewrite lookup_insert_eq in Hd'. injection Hd' as <-. by exists d.
  - rewrite lookup_insert_ne in Hd' by done. by exists d'.
Qed.

Lemma marks_kept_delete m f : marks_kept m (delete f m).
Proof.
  intros f' d' Hd'. apply lookup_delete_Some in Hd' as [_ Hd']. by exists d'.
Qed.

Lemma marks_kept_exclusive m m' :
  marks_kept m m' →
  (∀ f d, m !! f = Some d → marks_exclusive d) →
  ∀ f d, m' !! f = Some d → marks_exclusive d.
Proof.
  intros Hk Hm f d' Hd'. destruct (Hk f d' Hd') as (d & Hd & Hdel & Hsel).
  unfold marks_exclusive. rewrite Hdel, Hsel. by apply (Hm f).
Qed.

Lemma apply_judgment_logic_marks s f b s' :
  apply_judgment_logic s f b = Some s' →
  marks_kept (image_data s) (image_data s').
Proof.
  unfold apply_judgment_logic. intros Hrun.
  destruct (image_data s !! f) as [d|] eqn:Hd; [|done]. simpl in Hrun.
  destruct b.
  - destruct (list_index f (files s)) as [idx|]; [|done]. simpl in Hrun.
    match type of Hrun with
    | context [mbind _ ?x] => destruct x as [d1|] eqn:Hd1; [|done]
    end.
    simpl in Hrun. injection Hrun as <-. simpl.
    rewrite insert_insert_eq.
    assert (Hmarks : to_delete d1 = to_delete d ∧ to_select d1 = to_select d).
    { destruct (0 <? idx)%nat; simpl in Hd1.
      - destruct (files s !! (idx - 1)%nat) as [p|]; [|done]. simpl in Hd1.
        destruct (<[f:=_]> (image_data s) !! p) as [prev|]; [|done].
        simpl in Hd1. destruct (float_ge _ _); by injection Hd1 as <-.
      - by injection Hd1 as <-. }
    destruct Hmarks. by apply (marks_kept_insert _ _ d).
  - injection Hrun as <-. simpl. by apply (marks_kept_insert _ _ d).
Qed.

Lemma handle_analysis_result_marks s f blur sim (thumb : Thumb) s' :
  handle_analysis_result s f blur sim thumb = Some s' →
  marks_kept (image_data s) (image_data s').
Proof.
  unfold handle_analysis_result. intros Hrun.
  destruct (image_data s !! f) as [d|] eqn:Hd; [|done]. simpl in Hrun.
  rewrite lookup_insert_eq in Hrun. simpl in Hrun.
  rewrite insert_insert_eq in Hrun.
  destruct (apply_judgment_logic _ f true) as [s1|] eqn:Hs1; [|done].
  simpl in Hrun. destruct (files s1 !! current_idx s1); [|done].
  injection Hrun as <-.
  apply apply_judgment_logic_marks in Hs1. simpl in Hs1.
  eapply marks_kept_trans; [|exact Hs1].
  by apply (marks_kept_insert _ _ d).
Qed.

Lemma refresh_blur_marks (fs : list string) s s' :
  refresh_blur fs s = Some s' → marks_kept (image_data s) (image_data s').
Proof.
  revert s. induction fs as [|f fs IH]; intros s Hrun; simpl in Hrun.
  - injection Hrun as <-. apply marks_kept_refl.
  - destruct (apply_judgment_logic s f false) as [s1|] eqn:Hs1; [|done].
    simpl in Hrun. eapply marks_kept_trans.
    + by eapply apply_judgment_logic_marks.
    + by apply IH.
Qed.

Lemma regroup_marks th (fs : list string) curr m m' :
  regroup th fs curr m = Some m' → marks_kept m m'.
Proof.
  revert curr m. induction fs as [|f fs IH]; intros curr m Hrun; simpl in Hrun.
  - injection Hrun as <-. apply marks_kept_refl.
  - destruct (m !! f) as [d|] eqn:Hd; [|done]. simpl in Hrun.
    destruct (float_ge _ _);
      (eapply marks_kept_trans; [|by eapply IH]);
      by apply (marks_kept_insert _ _ d).
Qed.

Lemma refresh_marks s s' :
  refresh_judgments_instantly s = Some s' →
  marks_kept (image_data s) (image_data s').
Proof.
  unfold refresh_judgments_instantly. intros Hrun.
  destruct (refresh_blur (files s) s) as [s1|] eqn:Hs1; [|done].
  simpl in Hrun. apply refresh_blur_marks in Hs1.
  match type of Hrun with
  | context [mbind _ ?x] => destruct x as [m0|] eqn:Hm0; [|done]
  end.
  simpl in Hrun. destruct (regroup _ _ _ m0) as [m|] eqn:Hm; [|done].
  injection Hrun as <-. simpl.
  eapply marks_kept_trans; [exact Hs1|].
  eapply marks_kept_trans; [|by eapply regroup_marks].
  destruct (files s1) as [|f0 rest].
  - injection Hm0 as <-. apply marks_kept_refl.
  - destruct (image_data s1 !! f0) as [d|] eqn:Hd; [|done].
    injection Hm0 as <-. by apply (marks_kept_insert _ _ d).
Qed.

Lemma commit_one_marks (st : commit_st Thumb FS) item :
  marks_kept (image_data (cs_app st))
    (image_data (cs_app (commit_one shutil_move basename path_join st item))).
Proof.
  destruct item as [fpath act]. unfold commit_one.
  destruct (shutil_move _ _ _); [|apply marks_kept_refl].
  destruct (list_remove fpath _); [|apply marks_kept_refl]. simpl.
  destruct (image_data (cs_app st) !! fpath); simpl;
    [apply marks_kept_delete|apply marks_kept_refl].
Qed.

Lemma commit_loop_marks tp (st : commit_st Thumb FS) :
  marks_kept (image_data (cs_app st))
    (image_data (cs_app (commit_loop shutil_move basename path_join tp st))).
Proof.
  revert st. induction tp as [|item tp IH]; intros st; simpl.
  - apply marks_kept_refl.
  - eapply marks_kept_trans; [apply commit_one_marks|apply IH].
Qed.

Lemma image_data_show_current_image s :
  image_data (show_current_image s) = image_data s.
Proof. unfold show_current_image. by destruct (files s). Qed.

Lemma image_data_clamp_current_idx s :
  image_data (clamp_current_idx s) = image_data s.
Proof. unfold clamp_current_idx. by destruct (_ <=? _)%nat. Qed.

Lemma execute_actions_marks s (w : FS) s' w' :
  execute_actions path_exists makedirs shutil_move basename path_join s w
    = Some (s', w') →
  marks_kept (image_data s) (image_data s').
Proof.
  unfold execute_actions. intros Hrun.
  destruct (ensure_dir _ _ _ w) as [w1|]; [|done]. simpl in Hrun.
  destruct (ensure_dir _ _ _ w1) as [w2|]; [|done]. simpl in Hrun.
  destruct (collect_marked _ _) as [tp|]; [|done]. simpl in Hrun.
  destruct tp as [|item tp].
  - injection Hrun as <- <-. apply marks_kept_refl.
  - injection Hrun as <- <-. simpl.
    match goal with
    | |- context [if ?c then _ else _] => destruct c
    end; rewrite ?image_data_show_current_image, image_data_clamp_current_idx;
      apply (commit_loop_marks (item :: tp)).
Qed.

Lemma toggle_delete_exclusive d : marks_exclusive (toggle_delete d).
Proof.
  unfold marks_exclusive, toggle_delete. simpl.
  destruct (to_delete d); simpl; intros [? ?]; done.
Qed.

Lemma toggle_select_exclusive d : marks_exclusive (toggle_select d).
Proof.
  unfold marks_exclusive, toggle_select. simpl.
  destruct (to_select d); simpl; intros [? ?]; done.
Qed.

Lemma keyPressEvent_exclusive s (w : FS) k s' w' :
  keyPressEvent path_exists makedirs shutil_move basename path_join s w k
    = Some (s', w') →
  (∀ f d, image_data s !! f = Some d → marks_exclusive d) →
  ∀ f d, image_data s' !! f = Some d → marks_exclusive d.
Proof.
  unfold keyPressEvent. intros Hrun Hinv.
  destruct (files s) as [|f0 rest] eqn:Hfs.
  { by injection Hrun as <- <-. }
  destruct ((f0 :: rest) !! current_idx s) as [fpath|]; [|done].
  simpl in Hrun. destruct k.
  - destruct (stack_index s =? 0)%nat; injection Hrun as <- <-;
      rewrite ?image_data_show_current_image; done.
  - destruct (image_data s !! fpath) as [d|] eqn:Hd; [|done].
    injection Hrun as <- <-. simpl. intros f d' Hd'.
    destruct (decide (fpath = f)) as [<-|Hne].
    + rewrite lookup_insert_eq in Hd'. injection Hd' as <-.
      apply toggle_delete_exclusive.
    + rewrite lookup_insert_ne in Hd' by done. by apply (Hinv f).
  - destruct (image_data s !! fpath) as [d|] eqn:Hd; [|done].
    injection Hrun as <- <-. simpl. intros f d' Hd'.
    destruct (decide (fpath = f)) as [<-|Hne].
    + rewrite lookup_insert_eq in Hd'. injection Hd' as <-.
      apply toggle_select_exclusive.
    + rewrite lookup_insert_ne in Hd' by done. by apply (Hinv f).
  - destruct (_ <? _)%nat; [|by injection Hrun as <- <-].
    injection Hrun as <- <-. simpl.
    destruct (stack_index s =? 0)%nat;
      rewrite ?image_data_show_current_image; done.
  - destruct (_ <? _)%nat; [|by injection Hrun as <- <-].
    injection Hrun as <- <-. simpl.
    destruct (stack_index s =? 0)%nat;
      rewrite ?image_data_show_current_image; done.
  - apply execute_actions_marks in Hrun.
    by apply (marks_kept_exclusive _ _ Hrun).
  - by injection Hrun as <- <-.
Qed.

Lemma run_op_exclusive (o : op) (st st' : app Thumb * FS) :
  run_op path_exists makedirs shutil_move basename path_join o st = Some st' →
  (∀ f d, image_data st.1 !! f = Some d → marks_exclusive d) →
  ∀ f d, image_data st'.1 !! f = Some d → marks_exclusive d.
Proof.
  destruct st as [s w], st' as [s' w']. simpl. intros Hrun Hinv.
  destruct o as [fpath b si t|v|v|k|index]; simpl in Hrun.
  - destruct (handle_analysis_result _ _ _ _ _) as [s1|] eqn:Hs1; [|done].
    injection Hrun as <- <-. apply handle_analysis_result_marks in Hs1.
    by apply (marks_kept_exclusive _ _ Hs1).
  - unfold set_slider_blur in Hrun. case_decide.
    + by injection Hrun as <- <-.
    + destruct (refresh_judgments_instantly _) as [s1|] eqn:Hs1; [|done].
      injection Hrun as <- <-. apply refresh_marks in Hs1.
      by apply (marks_kept_exclusive _ _ Hs1).
  - unfold set_slider_sim in Hrun. case_decide.
    + by injection Hrun as <- <-.
    + destruct (refresh_judgments_instantly _) as [s1|] eqn:Hs1; [|done].
      injection Hrun as <- <-. apply refresh_marks in Hs1.
      by apply (marks_kept_exclusive _ _ Hs1).
  - by eapply keyPressEvent_exclusive.
  - destruct (_ <? _)%nat; injection Hrun as <- <-; [|done].
    unfold switch_to_single_view. by rewrite image_data_show_current_image.
Qed.

Lemma reachable_exclusive dd sd fs (w0 : FS) (st : app Thumb * FS) :
  reachable path_exists makedirs shutil_move basename path_join dd sd fs w0 st →
  ∀ f d, image_data st.1 !! f = Some d → marks_exclusive d.
Proof.
  induction 1 as [|st o st' _ IH Hrun].
  - simpl. intros f d Hd. apply init_app_record in Hd as ->.
    intros [? _]. done.
  - by eapply run_op_exclusive.
Qed.

End Marks.

Lemma keyPressEvent_D {Thumb FS} pe mk mv bn pj (s : app Thumb) (w : FS) f d :
  files s !! current_idx s = Some f → image_data s !! f = Some d →
  keyPressEvent pe mk mv bn pj s w Key_D
  = Some (with_image_data (<[f := toggle_delete d]> (image_data s)) s, w).
Proof.
  intros Hf Hd. unfold keyPressEvent.
  destruct (files s) as [|f0 rest] eqn:Hfs; [by rewrite lookup_nil in Hf|].
  rewrite Hf. simpl. by rewrite Hd.
Qed.

Lemma keyPressEvent_E {Thumb FS} pe mk mv bn pj (s : app Thumb) (w : FS) f d :
  files s !! current_idx s = Some f → image_data s !! f = Some d →
  keyPressEvent pe mk mv bn pj s w Key_E
  = Some (with_image_data (<[f := toggle_select d]> (image_data s)) s, w).
Proof.
  intros Hf Hd. unfold keyPressEvent.
  destruct (files s) as [|f0 rest] eqn:Hfs; [by rewrite lookup_nil in Hf|].
  rewrite Hf. simpl. by rewrite Hd.
Qed.

(** C5. In every state the window can reach, no record has both marks.
    Key D toggles the delete mark of the displayed file and key E its
    select mark, leaving the other records as they are: on a record with at
    most one mark, toggling delete gives delete = not delete and select =
    false, and toggling select gives select = not select and delete =
    false, so the other mark is cleared and an active mark goes back to
    unmarked.  Pressing D and then E on an unmarked file leaves it with
    delete = false and select = true. *)
Theorem marks_mutually_exclusive {Thumb FS} pe mk mv bn pj :
  (∀ dd sd fs (w0 : FS) (st : app Thumb * FS) f d,
     reachable pe mk mv bn pj dd sd fs w0 st →
     image_data st.1 !! f = Some d →
     ¬ (to_delete d = true ∧ to_select d = true)) ∧
  (∀ (s : app Thumb) (w : FS) f d,
     files s !! current_idx s = Some f → image_data s !! f = Some d →
     ∃ s1 s2,
       keyPressEvent pe mk mv bn pj s w Key_D = Some (s1, w) ∧
       image_data s1 !! f = Some (toggle_delete d) ∧
       (∀ f', f' ≠ f → image_data s1 !! f' = image_data s !! f') ∧
       keyPressEvent pe mk mv bn pj s w Key_E = Some (s2, w) ∧
       image_data s2 !! f = Some (toggle_select d) ∧
       (∀ f', f' ≠ f → image_data s2 !! f' = image_data s !! f')) ∧
  (∀ d, ¬ (to_delete d = true ∧ to_select d = true) →
     to_delete (toggle_delete d) = negb (to_delete d) ∧
     to_select (toggle_delete d) = false ∧
     to_select (toggle_select d) = negb (to_select d) ∧
     to_delete (toggle_select d) = false) ∧
  (∀ (s : app Thumb) (w : FS) f d,
     files s !! current_idx s = Some f → image_data s !! f = Some d →
     to_delete d = false → to_select d = false →
     ∃ s1 s2 d2,
       keyPressEvent pe mk mv bn pj s w Key_D = Some (s1, w) ∧
       keyPressEvent pe mk mv bn pj s1 w Key_E = Some (s2, w) ∧
       image_data s2 !! f = Some d2 ∧
       to_delete d2 = false ∧ to_select d2 = true).
Proof.
  split; [|split; [|split]].
  - intros dd sd fs w0 st f d Hreach Hd.
    by apply (reachable_exclusive pe mk mv bn pj dd sd fs w0 st Hreach f d).
  - intros s w f d Hf Hd. eexists _, _.
    split; [by apply keyPressEvent_D|]. simpl.
    split; [by apply lookup_insert_eq|].
    split; [by intros f' Hne; rewrite lookup_insert_ne|].
    split; [by apply keyPressEvent_E|]. simpl.
    split; [by apply lookup_insert_eq|].
    by intros f' Hne; rewrite lookup_insert_ne.
  - intros [sc sp del sel g b] Hex. unfold toggle_delete, toggle_select.
    simpl in *. destruct del, sel; simpl;
      first [by repeat split | exfalso; by apply Hex].
  - intros s w f d Hf Hd Hdel Hsel. eexists _, _, _.
    split; [by apply keyPressEvent_D|].
    split.
    { apply keyPressEvent_E; simpl; [done|by apply lookup_insert_eq]. }
    simpl. split; [by apply lookup_insert_eq|].
    destruct d as [sc sp del sel g b]. simpl in Hdel, Hsel. by subst.
Qed.

Lemma marks_mutually_exclusive_witness :
  (∀ f d, image_data Sample.fresh !! f = Some d →
     ¬ (to_delete d = true ∧ to_select d = true)) ∧
  (∃ s1 s2 d2,
     Sample.press [] Sample.fresh [] Key_D = Some (s1, []) ∧
     Sample.press [] s1 [] Key_E = Some (s2, []) ∧
     image_data s2 !! "a.jpg" = Some d2 ∧
     to_delete d2 = false ∧ to_select d2 = true) ∧
  (to_delete (toggle_delete (set_to_select true initial_record)) = true ∧
   to_select (toggle_delete (set_to_select true initial_record)) = false).
Proof.
  pose proof (@marks_mutually_exclusive unit Sample.fs Sample.path_exists
                Sample.makedirs (Sample.shutil_move []) Sample.basename
                Sample.path_join) as (Hinv & _ & Htoggle & Hscen).
  split; [|split].
  - intros f d Hd.
    apply (Hinv "Deleted_Images"%string "Selected_Images"%string Sample.folder []
             (Sample.fresh, []) f d); [apply reach_init|exact Hd].
  - apply (Hscen Sample.fresh [] "a.jpg" initial_record).
    + vm_compute. reflexivity.
    + vm_compute. reflexivity.
    + reflexivity.
    + reflexivity.
  - destruct (Htoggle (set_to_select true initial_record)) as (H1 & H2 & _).
    + simpl. intros [H _]. discriminate H.
    + split; [exact H1|exact H2].
Defined.

(** ** The analysis thread *)

Section AnalyzerFacts.

Context {Img Thumb : Type}.
Variable imread : string → option Img.
Variable make_thumbnail : Img → Thumb.
Variable sim_sample : Img → Img.
Variable compare_hist : Img → Img → float.
Variable calculate_blur : Img → float.
Variable is_running : nat → bool.
Hypothesis never_stopped : ∀ i, is_running i = true.

#[local] Abbreviation run_from :=
  (run_from imread make_thumbnail sim_sample compare_hist calculate_blur is_running).
#[local] Abbreviation expected_from :=
  (expected_from imread make_thumbnail sim_sample compare_hist calculate_blur).

Lemma last_loaded_snoc_None pre f :
  imread f = None → last_loaded imread (pre ++ [f]) = last_loaded imread pre.
Proof.
  intros Hf. unfold last_loaded. rewrite omap_app. simpl. rewrite Hf.
  by rewrite app_nil_r.
Qed.

Lemma last_loaded_snoc_Some pre f img :
  imread f = Some img → last_loaded imread (pre ++ [f]) = Some img.
Proof.
  intros Hf. unfold last_loaded. rewrite omap_app. simpl. rewrite Hf.
  apply last_snoc.
Qed.

Lemma last_loaded_Some_length pre p :
  last_loaded imread pre = Some p → (0 < length pre)%nat.
Proof. destruct pre; [done|simpl; lia]. Qed.

(** The loop, started after the files [pre], emits what is expected. *)
Lemma run_from_expected total (fs : list string) :
  ∀ pre, run_from total (length pre) fs (sim_sample <$> last_loaded imread pre)
         = expected_from total pre fs.
Proof using never_stopped.
  induction fs as [|f fs IH]; intros pre; [done|].
  simpl. rewrite never_stopped. simpl.
  specialize (IH (pre ++ [f])). rewrite length_app in IH. simpl in IH.
  replace (length pre + 1)%nat with (S (length pre)) in IH by lia.
  destruct (imread f) as [img|] eqn:Hf.
  - rewrite (last_loaded_snoc_Some _ _ _ Hf) in IH. simpl in IH. rewrite IH.
    simpl. f_equal. f_equal. unfold expected_similarity.
    destruct (last_loaded imread pre) as [p|] eqn:Hp; simpl.
    + apply last_loaded_Some_length in Hp.
      by destruct (Nat.ltb_spec 0 (length pre)); [|lia].
    + by rewrite andb_false_r.
  - rewrite (last_loaded_snoc_None _ _ Hf) in IH. by rewrite IH.
Qed.

Lemma result_paths_expected_from total (fs : list string) :
  ∀ pre, result_paths (expected_from total pre fs)
         = filter (λ f, is_Some (imread f)) fs.
Proof.
  induction fs as [|f fs IH]; intros pre; [done|].
  simpl. unfold result_paths in *. rewrite omap_app, IH, filter_cons.
  by destruct (imread f) as [img|] eqn:Hf.
Qed.

Lemma expected_from_elem total pre0 pre f post img :
  imread f = Some img →
  ResultReady f (calculate_blur img)
    (expected_similarity imread sim_sample compare_hist (pre0 ++ pre) img)
    (make_thumbnail img)
  ∈ expected_from total pre0 (pre ++ f :: post).
Proof.
  intros Hf. revert pre0. induction pre as [|g pre IH]; intros pre0; simpl.
  - rewrite Hf, app_nil_r. simpl. by left.
  - apply elem_of_app. right.
    specialize (IH (pre0 ++ [g])). by rewrite <- app_assoc in IH.
Qed.

End AnalyzerFacts.

Lemma omap_all_None {A B} (h : A → option B) (l : list A) :
  (∀ x, x ∈ l → h x = None) → omap h l = [].
Proof.
  induction l as [|a l IH]; intros Hall; [done|].
  simpl. rewrite (Hall a) by (by left). apply IH.
  intros x Hx. apply Hall. by right.
Qed.

Lemma last_loaded_none {Img} (imread : string → option Img) pre :
  (∀ h, h ∈ pre → imread h = None) → last_loaded imread pre = None.
Proof. intros Hall. unfold last_loaded. by rewrite omap_all_None. Qed.

Lemma last_loaded_most_recent {Img} (imread : string → option Img) pre1 g pre2 p :
  imread g = Some p → (∀ h, h ∈ pre2 → imread h = None) →
  last_loaded imread (pre1 ++ g :: pre2) = Some p.
Proof.
  intros Hg Hall. unfold last_loaded. rewrite omap_app.
  change (g :: pre2) with ([g] ++ pre2).
  rewrite omap_app, (omap_all_None _ _ Hall), app_nil_r. simpl.
  rewrite Hg. apply last_snoc.
Qed.

Lemma handle_analysis_result_frame {Thumb} (s : app Thumb) f blur sim thumb :
  wf_store s → f ∈ files s → is_Some (files s !! current_idx s) →
  ∃ s', handle_analysis_result s f blur sim thumb = Some s' ∧
    files s' = files s ∧ current_idx s' = current_idx s ∧ wf_store s' ∧
    ∀ f', f' ≠ f → image_data s' !! f' = image_data s !! f'.
Proof.
  intros Hwf Hin Hcur.
  pose proof Hwf as [Hnd Hall]. destruct (Hall f Hin) as [d Hd].
  destruct (incremental_group_id_total s f
              (set_sim_prev sim (set_score blur d)) Hwf Hin)
    as (idx & g & Hidx & Hg).
  eexists. split; [by apply (handle_analysis_result_spec s f d idx g)|].
  simpl. split; [done|]. split; [done|]. split.
  - split; [done|]. simpl. intros f' Hf'.
    destruct (decide (f = f')) as [<-|Hne].
    + rewrite lookup_insert_eq. by eexists.
    + rewrite lookup_insert_ne by done. by apply Hall.
  - intros f' Hne. by rewrite lookup_insert_ne.
Qed.

Lemma deliver_all_frame {Thumb} (es : list (event Thumb)) :
  ∀ s : app Thumb,
    wf_store s → is_Some (files s !! current_idx s) →
    (∀ f, f ∈ result_paths es → f ∈ files s) →
    ∃ s', deliver_all es s = Some s' ∧ files s' = files s ∧
      ∀ f, f ∉ result_paths es → image_data s' !! f = image_data s !! f.
Proof.
  induction es as [|e es IH]; intros s Hwf Hcur Hsub.
  - by exists s.
  - destruct e as [f b si t|c n]; simpl.
    + destruct (handle_analysis_result_frame s f b si t Hwf) as
        (s1 & Hrun & Hfiles & Hidx & Hwf1 & Hframe); [|done|].
      { apply Hsub. unfold result_paths. simpl. by left. }
      rewrite Hrun. simpl.
      destruct (IH s1 Hwf1) as (s' & Hrun' & Hfiles' & Hframe').
      { by rewrite Hfiles, Hidx. }
      { intros f' Hf'. rewrite Hfiles. apply Hsub.
        unfold result_paths in *. simpl. by right. }
      exists s'. split; [done|]. split; [congruence|].
      intros f' Hf'. unfold result_paths in Hf'. simpl in Hf'.
      apply not_elem_of_cons in Hf' as [Hne Hf'].
      rewrite Hframe' by done. by apply Hframe.
    + destruct (IH s Hwf Hcur) as (s' & Hrun' & Hfiles' & Hframe'); [done|].
      by exists s'.
Qed.

(** C8. While it is not stopped, the analysis thread goes through the
    list once, in order.  A file that cannot be read gets no result signal,
    and delivering the signals of the run leaves its record as it was; the
    run itself is a total function of the list, so nothing fails.  A file
    that can be read gets one result, whose similarity is 0 when no file
    before it could be read, and otherwise is the comparison of its sample
    with the sample of the nearest file before it that could be read,
    whatever lies in between. *)
Theorem run_skips_unreadable_and_chains_similarity {Img Thumb}
    (imread : string → option Img) (make_thumbnail : Img → Thumb)
    (sim_sample : Img → Img) (compare_hist : Img → Img → float)
    (calculate_blur : Img → float) (is_running : nat → bool) (fs : list string) :
  (∀ i, is_running i = true) →
  let emitted :=
    run imread make_thumbnail sim_sample compare_hist calculate_blur is_running fs in
  emitted
    = expected_events imread make_thumbnail sim_sample compare_hist calculate_blur fs ∧
  result_paths emitted = filter (λ f, is_Some (imread f)) fs ∧
  (∀ pre f post img,
     fs = pre ++ f :: post → imread f = Some img →
     ∃ sim, ResultReady f (calculate_blur img) sim (make_thumbnail img) ∈ emitted ∧
       ((∀ h, h ∈ pre → imread h = None) → sim = 0%float) ∧
       (∀ pre1 g pre2 p,
          pre = pre1 ++ g :: pre2 → imread g = Some p →
          (∀ h, h ∈ pre2 → imread h = None) →
          sim = compare_hist (sim_sample img) (sim_sample p))) ∧
  (∀ s : app Thumb,
     files s = fs → wf_store s → is_Some (files s !! current_idx s) →
     ∃ s', deliver_all emitted s = Some s' ∧
       ∀ f, imread f = None → image_data s' !! f = image_data s !! f).
Proof.
  intros Hrunning emitted.
  assert (Hexp : emitted = expected_events imread make_thumbnail sim_sample
                             compare_hist calculate_blur fs).
  { unfold emitted, run, expected_events.
    apply (run_from_expected _ _ _ _ _ _ Hrunning (length fs) fs []). }
  assert (Hpaths : result_paths emitted = filter (λ f, is_Some (imread f)) fs).
  { rewrite Hexp. apply result_paths_expected_from. }
  split; [done|]. split; [done|]. split.
  - intros pre f post img Hfs Hf.
    exists (expected_similarity imread sim_sample compare_hist pre img).
    split; [|split].
    + rewrite Hexp, Hfs. unfold expected_events.
      apply (expected_from_elem _ _ _ _ _ _ [] pre f post img Hf).
    + intros Hnone. unfold expected_similarity.
      by rewrite (last_loaded_none _ _ Hnone).
    + intros pre1 g pre2 p -> Hg Hnone. unfold expected_similarity.
      by rewrite (last_loaded_most_recent _ _ _ _ _ Hg Hnone).
  - intros s Hfiles Hwf Hcur.
    destruct (deliver_all_frame emitted s Hwf Hcur) as (s' & Hrun & _ & Hframe).
    { intros f. rewrite Hpaths, Hfiles. intros Hf.
      by apply list_elem_of_filter in Hf as [_ Hf]. }
    exists s'. split; [done|]. intros f Hf. apply Hframe.
    rewrite Hpaths. intros Hc. apply list_elem_of_filter in Hc as [[? Hc] _].
    congruence.
Qed.

Lemma run_skips_unreadable_and_chains_similarity_witness :
  Sample.events
    = [ResultReady "a.jpg" 200%float 0%float tt; ProgressUpdate 1 3;
       ResultReady "c.jpg" 200%float 0.9%float tt; ProgressUpdate 3 3] ∧
  result_paths Sample.events = ["a.jpg"; "c.jpg"] ∧
  (∃ s', deliver_all Sample.events Sample.fresh = Some s' ∧
     ∀ f, Sample.imread f = None →
       image_data s' !! f = image_data Sample.fresh !! f).
Proof.
  pose proof (run_skips_unreadable_and_chains_similarity
                Sample.imread Sample.make_thumbnail Sample.sim_sample
                Sample.compare_hist Sample.calculate_blur Sample.is_running
                Sample.folder (λ _, eq_refl)) as (Hexp & Hpaths & _ & Hstore).
  split; [|split].
  - unfold Sample.events. rewrite Hexp. vm_compute. reflexivity.
  - unfold Sample.events. rewrite Hpaths. vm_compute. reflexivity.
  - apply (Hstore Sample.fresh).
    + reflexivity.
    + apply wf_storeb_correct. vm_compute. reflexivity.
    + vm_compute. eexists. reflexivity.
Defined.

(** ** The batch move *)

Lemma filter_all_true {A} (P : A → Prop) `{∀ x, Decision (P x)} (l : list A) :
  (∀ x, x ∈ l → P x) → filter P l = l.
Proof.
  induction l as [|a l IH]; intros Hall; [done|].
  rewrite filter_cons, decide_True by (apply Hall; by left).
  f_equal. apply IH. intros x Hx. apply Hall. by right.
Qed.

Lemma filter_ext_in {A} (P Q : A → Prop) `{∀ x, Decision (P x)} `{∀ x, Decision (Q x)}
    (l : list A) :
  (∀ x, x ∈ l → (P x ↔ Q x)) → filter P l = filter Q l.
Proof.
  induction l as [|a l IH]; intros Hall; [done|].
  rewrite !filter_cons.
  assert (Ha : P a ↔ Q a) by (apply Hall; by left).
  rewrite IH by (intros x Hx; apply Hall; by right).
  destruct (decide (P a)), (decide (Q a)); tauto.
Qed.

Section CommitFacts.

Context {Thumb FS : Type}.
Variable path_exists : string → FS → bool.
Variable makedirs : string → FS → option FS.
Variable shutil_move : string → string → FS → option FS.
Variable basename : string → string.
Variable path_join : string → string → string.
Implicit Types (s : app Thumb) (m : gmap string image_record) (w : FS).

#[local] Abbreviation commit_one := (commit_one shutil_move basename path_join).
#[local] Abbreviation run_loop := (commit_loop shutil_move basename path_join).
#[local] Abbreviation run_commit :=
  (execute_actions path_exists makedirs shutil_move basename path_join).
#[local] Abbreviation ensure_dir := (ensure_dir path_exists makedirs).
#[local] Abbreviation fs_after := (fs_after shutil_move basename path_join).
#[local] Abbreviation outcomes := (outcomes shutil_move basename path_join).
#[local] Abbreviation target := (target basename path_join).
#[local] Abbreviation commit_result := (commit_result shutil_move basename path_join).

Lemma list_remove_NoDup f (l : list string) :
  NoDup l → f ∈ l → list_remove f l = Some (filter (λ x, x ≠ f) l).
Proof.
  induction l as [|y l IH]; intros Hnd Hin; [by apply elem_of_nil in Hin|].
  apply NoDup_cons in Hnd as [Hy Hnd]. simpl. rewrite filter_cons.
  destruct (decide (y = f)) as [->|Hne].
  - rewrite decide_False by (by intros ?). f_equal. symmetry.
    apply filter_all_true. intros x Hx ->. done.
  - rewrite decide_True by done.
    apply elem_of_cons in Hin as [->|Hin]; [done|].
    by rewrite IH.
Qed.

Lemma destination_target s act f :
  destination basename path_join s act f
  = target (delete_path s) (select_path s) act f.
Proof. by destruct act. Qed.

Lemma commit_one_failed (st : commit_st Thumb FS) f act :
  shutil_move f (target (delete_path (cs_app st)) (select_path (cs_app st)) act f)
    (cs_fs st) = None →
  commit_one st (f, act) = st.
Proof. intros Hmv. unfold commit_one. by rewrite destination_target, Hmv. Qed.

Lemma commit_one_moved (st : commit_st Thumb FS) f act w' :
  shutil_move f (target (delete_path (cs_app st)) (select_path (cs_app st)) act f)
    (cs_fs st) = Some w' →
  NoDup (files (cs_app st)) → f ∈ files (cs_app st) →
  is_Some (image_data (cs_app st) !! f) →
  commit_one st (f, act)
  = CommitSt (removed f (cs_app st)) w'
      (match act with ActDelete => S (count_del st) | ActSelect => count_del st end)
      (match act with ActDelete => count_sel st | ActSelect => S (count_sel st) end).
Proof.
  intros Hmv Hnd Hin [d Hd]. unfold commit_one.
  rewrite destination_target, Hmv, (list_remove_NoDup _ _ Hnd Hin).
  simpl. by rewrite Hd.
Qed.

Lemma remove_all_cons f fs s :
  remove_all (f :: fs) s = remove_all fs (removed f s).
Proof. done. Qed.

(** What [remove_all] leaves. *)
Lemma remove_all_files fs s :
  files (remove_all fs s) = filter (λ x, x ∉ fs) (files s).
Proof.
  revert s. induction fs as [|f fs IH]; intros s.
  - simpl. symmetry. apply filter_all_true. intros x _. by apply not_elem_of_nil.
  - rewrite remove_all_cons, IH. simpl.
    rewrite list_filter_filter. apply filter_ext_in.
    intros x _. rewrite not_elem_of_cons. split; intros [? ?]; by split.
Qed.

Lemma remove_all_image_data fs s f :
  image_data (remove_all fs s) !! f
  = if decide (f ∈ fs) then None else image_data s !! f.
Proof.
  revert s. induction fs as [|g fs IH]; intros s.
  - destruct (decide (f ∈ [])) as [Hc|]; [by apply elem_of_nil in Hc|done].
  - rewrite remove_all_cons, IH. simpl.
    destruct (decide (f ∈ fs)) as [Hin|Hin].
    + rewrite decide_True by (by right). done.
    + destruct (decide (f = g)) as [->|Hne].
      * rewrite decide_True by (by left). apply lookup_delete_eq.
      * rewrite decide_False by (rewrite not_elem_of_cons; done).
        by apply lookup_delete_ne.
Qed.

Lemma remove_all_thumbnail_cache fs s f :
  thumbnail_cache (remove_all fs s) !! f
  = if decide (f ∈ fs) then None else thumbnail_cache s !! f.
Proof.
  revert s. induction fs as [|g fs IH]; intros s.
  - destruct (decide (f ∈ [])) as [Hc|]; [by apply elem_of_nil in Hc|done].
  - rewrite remove_all_cons, IH. simpl.
    destruct (decide (f ∈ fs)) as [Hin|Hin].
    + rewrite decide_True by (by right). done.
    + destruct (decide (f = g)) as [->|Hne].
      * rewrite decide_True by (by left). apply lookup_delete_eq.
      * rewrite decide_False by (rewrite not_elem_of_cons; done).
        by apply lookup_delete_ne.
Qed.

Lemma remove_all_paths fs s :
  delete_path (remove_all fs s) = delete_path s ∧
  select_path (remove_all fs s) = select_path s ∧
  stack_index (remove_all fs s) = stack_index s ∧
  current_idx (remove_all fs s) = current_idx s.
Proof.
  revert s. induction fs as [|g fs IH]; intros s; [done|].
  rewrite remove_all_cons. by destruct (IH (removed g s)) as (-> & -> & -> & ->).
Qed.

Lemma moved_files_cons f act (b : bool) log :
  moved_files ((f, act, b) :: log)
  = if b then f :: moved_files log else moved_files log.
Proof. unfold moved_files. rewrite filter_cons. by destruct b. Qed.

Lemma count_moved_cons act f a (b : bool) log :
  count_moved act ((f, a, b) :: log)
  = if b && bool_decide (a = act) then S (count_moved act log)
    else count_moved act log.
Proof.
  unfold count_moved. rewrite filter_cons. simpl.
  destruct b, a, act; simpl; done.
Qed.

Lemma outcomes_cons dd sd f act (tp : list (string * action)) w :
  outcomes dd sd ((f, act) :: tp) w
  = match shutil_move f (target dd sd act f) w with
    | None => (f, act, false) :: outcomes dd sd tp w
    | Some w' => (f, act, true) :: outcomes dd sd tp w'
    end.
Proof. done. Qed.

Lemma fs_after_cons dd sd f act (tp : list (string * action)) w :
  fs_after dd sd ((f, act) :: tp) w
  = match shutil_move f (target dd sd act f) w with
    | None => fs_after dd sd tp w
    | Some w' => fs_after dd sd tp w'
    end.
Proof. done. Qed.

(** The loop of execute_actions against the log of its moves. *)
Lemma commit_loop_spec (tp : list (string * action)) :
  ∀ st : commit_st Thumb FS,
    NoDup tp.*1 → NoDup (files (cs_app st)) →
    (∀ f, f ∈ tp.*1 →
       f ∈ files (cs_app st) ∧ is_Some (image_data (cs_app st) !! f)) →
    run_loop tp st
    = CommitSt
        (remove_all
           (moved_files (outcomes (delete_path (cs_app st)) (select_path (cs_app st))
                           tp (cs_fs st)))
           (cs_app st))
        (fs_after (delete_path (cs_app st)) (select_path (cs_app st)) tp (cs_fs st))
        (count_del st
         + count_moved ActDelete
             (outcomes (delete_path (cs_app st)) (select_path (cs_app st)) tp (cs_fs st)))
        (count_sel st
         + count_moved ActSelect
             (outcomes (delete_path (cs_app st)) (select_path (cs_app st)) tp (cs_fs st))).
Proof.
  induction tp as [|[f act] tp IH]; intros st Hnd Hfiles Hall.
  - destruct st as [s w cd cs]. simpl. unfold count_moved. simpl.
    f_equal; lia.
  - rewrite fmap_cons in Hnd. apply NoDup_cons in Hnd as [Hf Hnd].
    change (run_loop ((f, act) :: tp) st)
      with (run_loop tp (commit_one st (f, act))).
    rewrite !outcomes_cons, fs_after_cons.
    destruct (shutil_move f (target (delete_path (cs_app st))
                               (select_path (cs_app st)) act f) (cs_fs st))
      as [w1|] eqn:Hmv.
    + destruct (Hall f) as [Hin Hrec]; [by left|].
      rewrite (commit_one_moved st f act w1 Hmv Hfiles Hin Hrec).
      rewrite IH; [| done | by apply NoDup_filter |].
      * rewrite moved_files_cons, !count_moved_cons, remove_all_cons.
        simpl. f_equal; destruct act; simpl; lia.
      * intros g Hg. simpl. destruct (Hall g) as [Hgin Hgrec]; [by right|].
        assert (g ≠ f) by (intros ->; done).
        split; [by apply list_elem_of_filter|].
        by rewrite lookup_delete_ne.
    + rewrite (commit_one_failed st f act Hmv).
      rewrite IH; [| done | done |].
      * by rewrite moved_files_cons, !count_moved_cons.
      * intros g Hg. apply Hall. by right.
Qed.

(** When every move fails the loop changes nothing. *)
Lemma commit_loop_all_failed (tp : list (string * action)) (st : commit_st Thumb FS) :
  (∀ x, x ∈ outcomes (delete_path (cs_app st)) (select_path (cs_app st)) tp (cs_fs st) →
        x.2 = false) →
  run_loop tp st = st.
Proof.
  induction tp as [|[f act] tp IH]; intros Hall; [done|].
  change (run_loop ((f, act) :: tp) st)
    with (run_loop tp (commit_one st (f, act))).
  rewrite outcomes_cons in Hall.
  destruct (shutil_move f (target (delete_path (cs_app st))
                             (select_path (cs_app st)) act f) (cs_fs st))
    as [w1|] eqn:Hmv.
  - specialize (Hall (f, act, true)). simpl in Hall.
    discriminate Hall. by left.
  - rewrite (commit_one_failed st f act Hmv). apply IH.
    intros x Hx. apply Hall. by right.
Qed.

(** The list [to_process]. *)
Lemma collect_marked_spec m (fs : list string) :
  (∀ f, f ∈ fs → is_Some (m !! f)) →
  collect_marked m fs = Some (marked_items m fs).
Proof.
  induction fs as [|f fs IH]; intros Hall; [done|].
  destruct (Hall f) as [d Hd]; [by left|].
  simpl. rewrite Hd. simpl.
  rewrite IH by (intros g Hg; apply Hall; by right). simpl.
  unfold marked_items. simpl. rewrite ?Hd. simpl. unfold mark_of.
  by destruct (to_delete d), (to_select d).
Qed.

Lemma marked_items_files m (fs : list string) :
  (marked_items m fs).*1 = filter (λ f, is_Some (m !! f ≫= mark_of)) fs.
Proof.
  induction fs as [|f fs IH]; [done|].
  unfold marked_items in *. simpl. rewrite filter_cons.
  destruct (m !! f) as [d|]; simpl; [destruct (mark_of d) as [a|]; simpl|];
    first [exact IH | f_equal; exact IH].
Qed.

Lemma outcomes_items dd sd (tp : list (string * action)) w :
  (outcomes dd sd tp w).*1 = tp.
Proof.
  revert w. induction tp as [|[f act] tp IH]; intros w; [done|].
  rewrite outcomes_cons.
  destruct (shutil_move f (target dd sd act f) w); simpl; by rewrite IH.
Qed.

Lemma outcomes_app dd sd (pre post : list (string * action)) w :
  outcomes dd sd (pre ++ post) w
  = outcomes dd sd pre w ++ outcomes dd sd post (fs_after dd sd pre w).
Proof.
  revert w. induction pre as [|[f act] pre IH]; intros w; [done|].
  rewrite <- app_comm_cons, !outcomes_cons, fs_after_cons.
  destruct (shutil_move f (target dd sd act f) w); simpl; by rewrite IH.
Qed.

Lemma fs_after_app dd sd (pre post : list (string * action)) w :
  fs_after dd sd (pre ++ post) w = fs_after dd sd post (fs_after dd sd pre w).
Proof.
  revert w. induction pre as [|[f act] pre IH]; intros w; [done|].
  rewrite <- app_comm_cons, !fs_after_cons.
  destruct (shutil_move f (target dd sd act f) w); by rewrite IH.
Qed.

Lemma fs_after_all_failed dd sd (tp : list (string * action)) w :
  (∀ x, x ∈ outcomes dd sd tp w → x.2 = false) → fs_after dd sd tp w = w.
Proof.
  induction tp as [|[f act] tp IH]; intros Hall; [done|].
  rewrite outcomes_cons in Hall. rewrite fs_after_cons.
  destruct (shutil_move f (target dd sd act f) w) as [w1|].
  - specialize (Hall (f, act, true)). simpl in Hall.
    discriminate Hall. by left.
  - apply IH. intros x Hx. apply Hall. by right.
Qed.

Lemma moved_files_subset (log : list (string * action * bool)) f :
  f ∈ moved_files log → f ∈ log.*1.*1.
Proof.
  unfold moved_files. intros Hf.
  apply list_elem_of_fmap in Hf as (x & -> & Hx).
  apply list_elem_of_filter in Hx as [_ Hx].
  apply list_elem_of_fmap. exists x.1. split; [done|].
  apply list_elem_of_fmap. by exists x.
Qed.

Lemma failed_not_moved (log : list (string * action * bool)) f act :
  NoDup log.*1.*1 → (f, act, false) ∈ log → f ∉ moved_files log.
Proof.
  induction log as [|[[g a] b] log IH]; intros Hnd Hin.
  - by apply elem_of_nil in Hin.
  - rewrite !fmap_cons in Hnd. simpl in Hnd.
    apply NoDup_cons in Hnd as [Hg Hnd].
    rewrite moved_files_cons.
    apply elem_of_cons in Hin as [Heq|Hin].
    + injection Heq as <- <- <-. intros Hc.
      by apply moved_files_subset in Hc.
    + assert (Hfin : f ∈ log.*1.*1).
      { apply list_elem_of_fmap. exists (f, act). split; [done|].
        apply list_elem_of_fmap. by exists (f, act, false). }
      destruct b; [|by apply IH].
      apply not_elem_of_cons. split; [|by apply IH].
      intros ->. done.
Qed.

Lemma moved_files_all (log : list (string * action * bool)) :
  (∀ x, x ∈ log → x.2 = true) → moved_files log = log.*1.*1.
Proof.
  induction log as [|[[g a] b] log IH]; intros Hall; [done|].
  assert (b = true) as -> by (apply (Hall (g, a, b)); by left).
  rewrite moved_files_cons, !fmap_cons. simpl.
  f_equal. apply IH. intros x Hx. apply Hall. by right.
Qed.

Lemma moved_files_none (log : list (string * action * bool)) :
  (∀ x, x ∈ log → x.2 = false) → moved_files log = [].
Proof.
  induction log as [|[[g a] b] log IH]; intros Hall; [done|].
  assert (b = false) as -> by (apply (Hall (g, a, b)); by left).
  rewrite moved_files_cons.
  apply IH. intros x Hx. apply Hall. by right.
Qed.

Lemma count_moved_all act (log : list (string * action * bool)) :
  (∀ x, x ∈ log → x.2 = true) →
  count_moved act log = length (filter (λ x : string * action, x.2 = act) log.*1).
Proof.
  induction log as [|[[g a] b] log IH]; intros Hall; [done|].
  assert (b = true) as -> by (apply (Hall (g, a, b)); by left).
  rewrite count_moved_cons, !fmap_cons, filter_cons. simpl.
  rewrite IH by (intros x Hx; apply Hall; by right).
  destruct a, act; simpl; done.
Qed.

Lemma count_moved_total (log : list (string * action * bool)) :
  (count_moved ActDelete log + count_moved ActSelect log
   + length (failed_items log))%nat = length log.
Proof.
  unfold failed_items. rewrite length_fmap.
  induction log as [|[[g a] b] log IH]; [done|].
  rewrite !count_moved_cons, filter_cons.
  destruct b, a; simpl; lia.
Qed.

Lemma failed_items_cons f act (b : bool) (log : list (string * action * bool)) :
  failed_items ((f, act, b) :: log)
  = if b then failed_items log else (f, act) :: failed_items log.
Proof. unfold failed_items. rewrite filter_cons. by destruct b. Qed.

Lemma failed_items_filter (log : list (string * action * bool)) :
  NoDup log.*1.*1 →
  failed_items log
  = filter (λ x : string * action, x.1 ∉ moved_files log) log.*1.
Proof.
  induction log as [|[[g a] b] log IH]; intros Hnd; [done|].
  rewrite !fmap_cons in Hnd. simpl in Hnd.
  apply NoDup_cons in Hnd as [Hg Hnd].
  rewrite moved_files_cons, failed_items_cons, fmap_cons, filter_cons.
  assert (Hgm : g ∉ moved_files log).
  { intros Hc. by apply moved_files_subset in Hc. }
  destruct b.
  - rewrite decide_False by (intros Hc; apply Hc; by left).
    rewrite IH by done. apply filter_ext_in.
    intros [f' a'] Hx. simpl. rewrite not_elem_of_cons.
    split; [|by intros [_ ?]]. intros Hf'. split; [|done].
    intros ->. apply Hg. apply list_elem_of_fmap. by exists (g, a').
  - rewrite decide_True by done. by rewrite IH.
Qed.

Lemma marked_items_filter m m' (mv fs : list string) :
  (∀ f, f ∉ mv → m' !! f = m !! f) →
  marked_items m' (filter (λ f, f ∉ mv) fs)
  = filter (λ x : string * action, x.1 ∉ mv) (marked_items m fs).
Proof.
  intros Hagree. induction fs as [|f fs IH]; [done|].
  rewrite filter_cons. unfold marked_items in *.
  destruct (decide (f ∉ mv)) as [Hf|Hf].
  - simpl. rewrite Hagree by done.
    destruct (m !! f ≫= λ d, mark_of d ≫= λ act, Some (f, act))
      as [[f' a']|] eqn:Hm.
    + assert (f' = f) as ->.
      { destruct (m !! f) as [d|]; [|done]. simpl in Hm.
        destruct (mark_of d); [|done]. simpl in Hm. by injection Hm as <- _. }
      rewrite filter_cons. simpl. rewrite decide_True by done.
      f_equal. exact IH.
    + exact IH.
  - simpl.
    destruct (m !! f ≫= λ d, mark_of d ≫= λ act, Some (f, act))
      as [[f' a']|] eqn:Hm.
    + assert (f' = f) as ->.
      { destruct (m !! f) as [d|]; [|done]. simpl in Hm.
        destruct (mark_of d); [|done]. simpl in Hm. by injection Hm as <- _. }
      rewrite filter_cons. simpl. rewrite decide_False by done. exact IH.
    + exact IH.
Qed.

(** Fields the redraw steps leave alone. *)
Lemma show_current_image_fields s :
  files (show_current_image s) = files s ∧
  image_data (show_current_image s) = image_data s ∧
  thumbnail_cache (show_current_image s) = thumbnail_cache s ∧
  current_idx (show_current_image s) = current_idx s.
Proof. unfold show_current_image. destruct s as [fs ?]. simpl. by destruct fs. Qed.

Lemma clamp_current_idx_fields s :
  files (clamp_current_idx s) = files s ∧
  image_data (clamp_current_idx s) = image_data s ∧
  thumbnail_cache (clamp_current_idx s) = thumbnail_cache s ∧
  stack_index (clamp_current_idx s) = stack_index s.
Proof. unfold clamp_current_idx. by destruct (_ <=? _)%nat. Qed.

Lemma clamp_current_idx_bound s :
  (files s ≠ [] → (current_idx (clamp_current_idx s) < length (files s))%nat) ∧
  (files s = [] → current_idx (clamp_current_idx s) = 0%nat).
Proof.
  unfold clamp_current_idx.
  destruct (Nat.leb_spec (length (files s)) (current_idx s)) as [Hle|Hlt]; simpl.
  - split.
    + intros Hne. destruct (files s); [congruence|]. simpl. lia.
    + intros ->. done.
  - split; [done|]. intros Hnil. rewrite Hnil in Hlt. simpl in Hlt. lia.
Qed.

(** What a commit leaves, field by field. *)
Lemma committed_fields s log :
  files (committed s log) = filter (λ f, f ∉ moved_files log) (files s) ∧
  (∀ f, image_data (committed s log) !! f
        = if decide (f ∈ moved_files log) then None else image_data s !! f) ∧
  (∀ f, thumbnail_cache (committed s log) !! f
        = if decide (f ∈ moved_files log) then None else thumbnail_cache s !! f) ∧
  status_label (committed s log)
    = StatusDone (count_moved ActDelete log) (count_moved ActSelect log) ∧
  (files (committed s log) ≠ [] →
     (current_idx (committed s log) < length (files (committed s log)))%nat) ∧
  (files (committed s log) = [] → current_idx (committed s log) = 0%nat).
Proof.
  unfold committed.
  set (s0 := remove_all (moved_files log) s).
  destruct (clamp_current_idx_fields s0) as (Hf1 & Hm1 & Ht1 & _).
  destruct (clamp_current_idx_bound s0) as [Hb1 Hb2].
  destruct (show_current_image_fields (clamp_current_idx s0)) as (Hf2 & Hm2 & Ht2 & Hi2).
  assert (Hfiles : files s0 = filter (λ f, f ∉ moved_files log) (files s))
    by apply remove_all_files.
  destruct (stack_index (clamp_current_idx s0) =? 0)%nat; simpl;
    rewrite ?Hf2, ?Hm2, ?Ht2, ?Hi2, ?Hf1, ?Hm1, ?Ht1.
  all: split; [done|].
  all: split; [intros f; apply remove_all_image_data|].
  all: split; [intros f; apply remove_all_thumbnail_cache|].
  all: split; [done|].
  all: by split.
Qed.

Lemma marked_items_NoDup s :
  wf_store s → NoDup (marked_items (image_data s) (files s)).*1.
Proof. intros [Hnd _]. rewrite marked_items_files. by apply NoDup_filter. Qed.

Lemma marked_items_elem s f :
  wf_store s → f ∈ (marked_items (image_data s) (files s)).*1 →
  f ∈ files s ∧ is_Some (image_data s !! f).
Proof.
  intros [_ Hall]. rewrite marked_items_files. intros Hf.
  apply list_elem_of_filter in Hf as [_ Hf]. split; [done|by apply Hall].
Qed.

(** execute_actions as a whole: nothing to do without marks, and
    otherwise the store and the file system the log of moves gives. *)
Lemma execute_actions_spec s w w1 w2 :
  wf_store s →
  ensure_dir (delete_path s) w = Some w1 →
  ensure_dir (select_path s) w1 = Some w2 →
  run_commit s w
  = Some (match marked_items (image_data s) (files s) with
          | [] => s
          | tp => committed s (outcomes (delete_path s) (select_path s) tp w2)
          end,
          fs_after (delete_path s) (select_path s)
            (marked_items (image_data s) (files s)) w2).
Proof.
  intros Hwf H1 H2.
  unfold execute_actions. rewrite H1. simpl. rewrite H2. simpl.
  rewrite (collect_marked_spec _ _ (proj2 Hwf)). simpl.
  pose proof (marked_items_NoDup s Hwf) as Hnd.
  pose proof (marked_items_elem s) as Hel.
  destruct (marked_items (image_data s) (files s)) as [|item tp] eqn:Htp; [done|].
  rewrite (commit_loop_spec (item :: tp) (CommitSt s w2 0%nat 0%nat));
    [done|done|by destruct Hwf|].
  intros f Hf. by apply Hel.
Qed.

Lemma committed_paths s log :
  delete_path (committed s log) = delete_path s ∧
  select_path (committed s log) = select_path s.
Proof.
  unfold committed, clamp_current_idx.
  destruct (remove_all_paths (moved_files log) s) as (Hd & Hs & _ & _).
  set (s0 := remove_all (moved_files log) s) in *.
  destruct (_ <=? _)%nat; simpl;
    (destruct (_ =? _)%nat; [unfold show_current_image|]); simpl;
    try (destruct (files s0)); simpl; by rewrite ?Hd, ?Hs.
Qed.

Lemma commit_result_fields s w2 :
  let log := outcomes (delete_path s) (select_path s)
               (marked_items (image_data s) (files s)) w2 in
  files (commit_result s w2) = filter (λ f, f ∉ moved_files log) (files s) ∧
  (∀ f, image_data (commit_result s w2) !! f
        = if decide (f ∈ moved_files log) then None else image_data s !! f) ∧
  (∀ f, thumbnail_cache (commit_result s w2) !! f
        = if decide (f ∈ moved_files log) then None else thumbnail_cache s !! f) ∧
  delete_path (commit_result s w2) = delete_path s ∧
  select_path (commit_result s w2) = select_path s.
Proof.
  unfold commit_result. cbv zeta.
  destruct (marked_items (image_data s) (files s)) as [|item tp].
  - unfold moved_files. simpl. split; [|split; [|split]]; [| | |done].
    + symmetry. apply filter_all_true. intros x _. apply not_elem_of_nil.
    + intros f. destruct (decide (f ∈ [])) as [Hc|]; [by apply elem_of_nil in Hc|done].
    + intros f. destruct (decide (f ∈ [])) as [Hc|]; [by apply elem_of_nil in Hc|done].
  - set (log := outcomes _ _ _ w2).
    destruct (committed_fields s log) as (Hf & Hm & Ht & _).
    destruct (committed_paths s log) as [Hd Hs].
    done.
Qed.

Lemma marked_items_mark m (fs : list string) f act :
  (f, act) ∈ marked_items m fs → m !! f ≫= mark_of = Some act.
Proof.
  unfold marked_items. intros Hin.
  apply list_elem_of_omap in Hin as (f' & _ & Hf').
  destruct (m !! f') as [d|] eqn:Hd; [|done]. simpl in Hf'.
  destruct (mark_of d) as [a|] eqn:Ha; [|done]. simpl in Hf'.
  injection Hf' as -> ->. by rewrite Hd.
Qed.

Lemma failed_entry_kept s w2 f act :
  wf_store s →
  (f, act, false) ∈ outcomes (delete_path s) (select_path s)
                      (marked_items (image_data s) (files s)) w2 →
  f ∈ files (commit_result s w2) ∧
  image_data (commit_result s w2) !! f = image_data s !! f ∧
  thumbnail_cache (commit_result s w2) !! f = thumbnail_cache s !! f ∧
  image_data s !! f ≫= mark_of = Some act.
Proof.
  intros Hwf Hin.
  destruct (commit_result_fields s w2) as (Hf & Hm & Ht & _).
  set (tp := marked_items (image_data s) (files s)) in *.
  set (log := outcomes _ _ tp w2) in *.
  assert (Hlog : log.*1 = tp) by apply outcomes_items.
  assert (Hitem : (f, act) ∈ tp).
  { rewrite <- Hlog. apply list_elem_of_fmap. by exists (f, act, false). }
  assert (Hnotmoved : f ∉ moved_files log).
  { apply (failed_not_moved log f act); [|done].
    rewrite Hlog. by apply marked_items_NoDup. }
  assert (Hfiles : f ∈ files s).
  { apply (marked_items_elem s f Hwf).
    apply list_elem_of_fmap. by exists (f, act). }
  split; [|split; [|split]].
  - rewrite Hf. by apply list_elem_of_filter.
  - by rewrite Hm, decide_False.
  - by rewrite Ht, decide_False.
  - by apply (marked_items_mark _ (files s)).
Qed.

Lemma commit_result_to_process s w2 :
  wf_store s →
  collect_marked (image_data (commit_result s w2)) (files (commit_result s w2))
  = Some (failed_items (outcomes (delete_path s) (select_path s)
                          (marked_items (image_data s) (files s)) w2)).
Proof.
  intros Hwf.
  destruct (commit_result_fields s w2) as (Hf & Hm & _).
  set (log := outcomes _ _ _ w2) in *.
  rewrite collect_marked_spec.
  - f_equal. rewrite Hf.
    rewrite (marked_items_filter (image_data s)).
    + rewrite failed_items_filter.
      * unfold log. by rewrite outcomes_items.
      * unfold log. rewrite outcomes_items. by apply marked_items_NoDup.
    + intros f Hnot. by rewrite Hm, decide_False.
  - intros f. rewrite Hf. intros Hin.
    apply list_elem_of_filter in Hin as [Hnot Hin].
    rewrite Hm, decide_False by done. by apply (proj2 Hwf).
Qed.

Lemma commit_again_all_failed s' w' (failed : list (string * action)) :
  ensure_dir (delete_path s') w' = Some w' →
  ensure_dir (select_path s') w' = Some w' →
  collect_marked (image_data s') (files s') = Some failed →
  (∀ x, x ∈ outcomes (delete_path s') (select_path s') failed w' → x.2 = false) →
  ∃ s'', run_commit s' w' = Some (s'', w') ∧
    files s'' = files s' ∧ image_data s'' = image_data s' ∧
    thumbnail_cache s'' = thumbnail_cache s' ∧
    (failed ≠ [] → status_label s'' = StatusDone 0 0).
Proof.
  intros H1 H2 Hcol Hall.
  unfold execute_actions. rewrite H1. simpl. rewrite H2. simpl.
  rewrite Hcol. simpl.
  destruct failed as [|item tp]; [by exists s'|].
  rewrite (commit_loop_all_failed (item :: tp) (CommitSt s' w' 0%nat 0%nat) Hall).
  simpl. eexists. split; [done|].
  destruct (clamp_current_idx_fields s') as (Hf1 & Hm1 & Ht1 & _).
  destruct (show_current_image_fields (clamp_current_idx s')) as (Hf2 & Hm2 & Ht2 & _).
  destruct (stack_index (clamp_current_idx s') =? 0)%nat; simpl;
    rewrite ?Hf2, ?Hm2, ?Ht2, ?Hf1, ?Hm1, ?Ht1; done.
Qed.

Lemma commit_loop_skips_failed s w2 (pre post : list (string * action)) f act :
  wf_store s →
  marked_items (image_data s) (files s) = pre ++ (f, act) :: post →
  shutil_move f (target (delete_path s) (select_path s) act f)
    (fs_after (delete_path s) (select_path s) pre w2) = None →
  (f, act, false) ∈ outcomes (delete_path s) (select_path s)
                      (marked_items (image_data s) (files s)) w2 ∧
  run_loop (marked_items (image_data s) (files s)) (CommitSt s w2 0%nat 0%nat)
  = run_loop post (run_loop pre (CommitSt s w2 0%nat 0%nat)).
Proof.
  intros Hwf Htp Hmv. split.
  - rewrite Htp, outcomes_app, outcomes_cons, Hmv.
    apply elem_of_app. right. by left.
  - pose proof (marked_items_NoDup s Hwf) as Hnd.
    pose proof (marked_items_elem s) as Hel.
    rewrite Htp in *. unfold commit_loop.
    rewrite fold_left_app. simpl. f_equal.
    fold (run_loop pre (CommitSt s w2 0%nat 0%nat)).
    rewrite fmap_app in Hnd. apply NoDup_app in Hnd as (Hnd & _ & _).
    rewrite (commit_loop_spec pre (CommitSt s w2 0%nat 0%nat));
      [|done|by destruct Hwf|].
    + apply commit_one_failed. simpl.
      destruct (remove_all_paths
                  (moved_files (outcomes (delete_path s) (select_path s) pre w2)) s)
        as (-> & -> & _). done.
    + intros g Hg. simpl. apply Hel; [done|].
      rewrite fmap_app. apply elem_of_app. by left.
Qed.

End CommitFacts.

(** C6. A commit on a well-formed store whose two directories are there or
    can be made always returns, and tries the move of every marked file in
    list order.  When the move of a marked file fails, the loop goes on
    with the files after it exactly as if that file had not been in
    [to_process]; the file stays in the list with its record, its mark and
    its thumbnail unchanged; and the counts shown are those of the moves
    that succeeded, so that delete count + select count + failed files =
    marked files.  After the commit the marked files left are exactly the
    failed ones, so a second commit tries only those; if they fail again,
    on a file system where the directories exist, it changes neither the
    store nor the file system and shows the counts 0 and 0. *)
Theorem commit_skips_failed_moves {Thumb FS}
    (path_exists : string → FS → bool) (makedirs : string → FS → option FS)
    (shutil_move : string → string → FS → option FS)
    (basename : string → string) (path_join : string → string → string)
    (s : app Thumb) (w w1 w2 : FS) :
  wf_store s →
  ensure_dir path_exists makedirs (delete_path s) w = Some w1 →
  ensure_dir path_exists makedirs (select_path s) w1 = Some w2 →
  let dd := delete_path s in
  let sd := select_path s in
  let tp := marked_items (image_data s) (files s) in
  let log := outcomes shutil_move basename path_join dd sd tp w2 in
  let start := CommitSt s w2 0%nat 0%nat in
  ∃ s',
    execute_actions path_exists makedirs shutil_move basename path_join s w
      = Some (s', fs_after shutil_move basename path_join dd sd tp w2) ∧
    log.*1 = tp ∧
    (∀ pre f act post,
       tp = pre ++ (f, act) :: post →
       shutil_move f (target basename path_join dd sd act f)
         (fs_after shutil_move basename path_join dd sd pre w2) = None →
       (f, act, false) ∈ log ∧
       commit_loop shutil_move basename path_join tp start
       = commit_loop shutil_move basename path_join post
           (commit_loop shutil_move basename path_join pre start)) ∧
    (∀ f act,
       (f, act, false) ∈ log →
       f ∈ files s' ∧
       image_data s' !! f = image_data s !! f ∧
       thumbnail_cache s' !! f = thumbnail_cache s !! f ∧
       image_data s !! f ≫= mark_of = Some act) ∧
    files s' = filter (λ f, f ∉ moved_files log) (files s) ∧
    (tp ≠ [] →
       status_label s'
       = StatusDone (count_moved ActDelete log) (count_moved ActSelect log)) ∧
    (count_moved ActDelete log + count_moved ActSelect log
     + length (failed_items log))%nat = length tp ∧
    collect_marked (image_data s') (files s') = Some (failed_items log) ∧
    (∀ w',
       ensure_dir path_exists makedirs dd w' = Some w' →
       ensure_dir path_exists makedirs sd w' = Some w' →
       (∀ x, x ∈ outcomes shutil_move basename path_join dd sd (failed_items log) w' →
             x.2 = false) →
       ∃ s'',
         execute_actions path_exists makedirs shutil_move basename path_join s' w'
           = Some (s'', w') ∧
         files s'' = files s' ∧ image_data s'' = image_data s' ∧
         thumbnail_cache s'' = thumbnail_cache s' ∧
         (failed_items log ≠ [] → status_label s'' = StatusDone 0 0)).
Proof.
  intros Hwf H1 H2 dd sd tp log start.
  exists (commit_result shutil_move basename path_join s w2).
  destruct (commit_result_fields shutil_move basename path_join s w2)
    as (Hf & Hm & Ht & Hd & Hs).
  split; [by apply (execute_actions_spec path_exists makedirs shutil_move basename
                      path_join s w w1 w2)|].
  split; [by apply outcomes_items|].
  split; [intros pre f act post Htp Hmv; by apply commit_loop_skips_failed|].
  split; [intros f act Hin; by apply failed_entry_kept|].
  split; [done|].
  split.
  { intros Hne. unfold commit_result. fold tp.
    destruct tp as [|item tp'] eqn:Htp; [done|].
    by destruct (committed_fields s log) as (_ & _ & _ & Hst & _). }
  split.
  { rewrite count_moved_total. unfold log.
    rewrite <- (outcomes_items shutil_move basename path_join dd sd tp w2) at 2.
    by rewrite length_fmap. }
  split; [by apply commit_result_to_process|].
  intros w' H1' H2' Hall.
  apply (commit_again_all_failed _ _ _ _ _ _ w' (failed_items log)).
  - by rewrite Hd.
  - by rewrite Hs.
  - by apply commit_result_to_process.
  - by rewrite Hd, Hs.
Qed.

Lemma commit_skips_failed_moves_witness :
  ∃ s' w',
    Sample.commit ["b.jpg"] Sample.marked [] = Some (s', w') ∧
    w' = [("a.jpg", "Deleted_Images/a.jpg"); ("c.jpg", "Deleted_Images/c.jpg")] ∧
    files s' = ["b.jpg"] ∧
    image_data s' !! "b.jpg" = image_data Sample.marked !! "b.jpg" ∧
    image_data Sample.marked !! "b.jpg" ≫= mark_of = Some ActSelect ∧
    status_label s' = StatusDone 2 0 ∧
    ∃ s'', Sample.commit ["b.jpg"] s' w' = Some (s'', w') ∧
      files s'' = files s' ∧ image_data s'' = image_data s' ∧
      status_label s'' = StatusDone 0 0.
Proof.
  assert (Hwf : wf_store Sample.marked)
    by (apply wf_storeb_correct; vm_compute; reflexivity).
  destruct (commit_skips_failed_moves Sample.path_exists Sample.makedirs
              (Sample.shutil_move ["b.jpg"]) Sample.basename Sample.path_join
              Sample.marked [] [] [] Hwf eq_refl eq_refl)
    as (s' & Hrun & _ & _ & Hkept & Hfiles & Hstatus & _ & _ & Hagain).
  destruct (Hkept "b.jpg" ActSelect) as (_ & Hrec & _ & Hmark).
  { vm_compute. right. left. }
  destruct (Hagain [("a.jpg", "Deleted_Images/a.jpg"); ("c.jpg", "Deleted_Images/c.jpg")])
    as (s'' & Hrun2 & Hfiles2 & Hdata2 & _ & Hstatus2).
  { reflexivity. }
  { reflexivity. }
  { vm_compute. intros x Hx. apply list_elem_of_singleton in Hx. by subst x. }
  exists s', [("a.jpg", "Deleted_Images/a.jpg"); ("c.jpg", "Deleted_Images/c.jpg")].
  split; [exact Hrun|]. split; [reflexivity|].
  split; [rewrite Hfiles; vm_compute; reflexivity|].
  split; [exact Hrec|]. split; [exact Hmark|].
  split; [apply Hstatus; vm_compute; discriminate|].
  exists s''. split; [exact Hrun2|]. split; [exact Hfiles2|]. split; [exact Hdata2|].
  apply Hstatus2. vm_compute. discriminate.
Defined.

(** ** A commit whose moves all succeed *)

Lemma length_filter_neg {A} (P : A → Prop) `{∀ x, Decision (P x)} (l : list A) :
  (length (filter P l) + length (filter (λ x, ¬ P x) l))%nat = length l.
Proof.
  induction l as [|a l IH]; [done|].
  rewrite !filter_cons. destruct (decide (P a)).
  - rewrite decide_False by (by intros ?). simpl. lia.
  - rewrite decide_True by done. simpl. lia.
Qed.

Lemma length_by_action (tp : list (string * action)) :
  (length (filter (λ x : string * action, x.2 = ActDelete) tp)
   + length (filter (λ x : string * action, x.2 = ActSelect) tp))%nat = length tp.
Proof.
  induction tp as [|[f a] tp IH]; [done|].
  rewrite !filter_cons. destruct a; simpl; lia.
Qed.

Lemma marked_items_complete (m : gmap string image_record) (fs : list string) f d act :
  f ∈ fs → m !! f = Some d → mark_of d = Some act → (f, act) ∈ marked_items m fs.
Proof.
  intros Hin Hd Hact. unfold marked_items.
  apply list_elem_of_omap. exists f. split; [done|].
  rewrite Hd. simpl. by rewrite Hact.
Qed.

Lemma move_all_fs_after {FS} (shutil_move : string → string → FS → option FS)
    basename path_join dd sd (tp : list (string * action)) :
  ∀ w, (∀ x, x ∈ outcomes shutil_move basename path_join dd sd tp w → x.2 = true) →
       move_all shutil_move basename path_join dd sd tp w
       = Some (fs_after shutil_move basename path_join dd sd tp w).
Proof.
  unfold move_all. induction tp as [|[f act] tp IH]; intros w Hall; [done|].
  simpl in *. unfold target in *.
  destruct (shutil_move f _ w) as [w1|].
  - apply IH. intros x Hx. apply Hall. by right.
  - specialize (Hall (f, act, false)). simpl in Hall.
    discriminate Hall. by left.
Qed.

Lemma length_unmarked_marked (m : gmap string image_record) (fs : list string) :
  (length (filter (λ f, f ∉ (marked_items m fs).*1) fs)
   + length (marked_items m fs))%nat = length fs.
Proof.
  replace (length (marked_items m fs)) with (length (marked_items m fs).*1)
    by apply length_fmap.
  rewrite marked_items_files.
  rewrite (filter_ext_in _ (λ f, ¬ is_Some (m !! f ≫= mark_of)) fs).
  - rewrite Nat.add_comm. apply length_filter_neg.
  - intros f Hin. rewrite list_elem_of_filter. split.
    + intros Hn Hsome. apply Hn. by split.
    + intros Hn [Hsome _]. by apply Hn.
Qed.

(** C7 does not hold for a commit without marks: the moves, there being
    none, all succeed, but execute_actions returns before it writes the
    counts, so the status line still shows the position and no counts
    (0, 0) are reported. *)
Lemma commit_without_marks_reports_nothing :
  marked_items (image_data Sample.analysed) (files Sample.analysed) = [] ∧
  (∀ x, x ∈ outcomes (Sample.shutil_move []) Sample.basename Sample.path_join
              "Deleted_Images" "Selected_Images"
              (marked_items (image_data Sample.analysed) (files Sample.analysed)) [] →
        x.2 = true) ∧
  ∃ s', Sample.commit [] Sample.analysed [] = Some (s', []) ∧
    status_label s' = StatusPosition 1 3 ∧
    status_label s' ≠ StatusDone 0 0.
Proof.
  split; [vm_compute; reflexivity|]. split.
  - intros x Hx. vm_compute in Hx. by apply elem_of_nil in Hx.
  - eexists. split; [vm_compute; reflexivity|].
    split; [reflexivity|discriminate].
Qed.

(** C7, amended. For every commit with at least one marked record in
    which all moves succeed: every file of the list whose record is marked
    is moved, in list order, into the directory of its mark under its own
    base name; its list entry, its record and its thumbnail are removed,
    and the unmarked files keep their place and their records; the counts
    shown are the numbers of delete-marked and select-marked files, and the
    list is shorter by their sum; the displayed position is below the
    length of the list that is left, or 0 when no file is left.  With 2
    delete-marked and 1 select-marked files the counts are (2, 1) and the
    list is 3 shorter. *)
Theorem commit_moves_all_marked {Thumb FS}
    (path_exists : string → FS → bool) (makedirs : string → FS → option FS)
    (shutil_move : string → string → FS → option FS)
    (basename : string → string) (path_join : string → string → string)
    (s : app Thumb) (w w1 w2 : FS) :
  wf_store s →
  ensure_dir path_exists makedirs (delete_path s) w = Some w1 →
  ensure_dir path_exists makedirs (select_path s) w1 = Some w2 →
  let dd := delete_path s in
  let sd := select_path s in
  let tp := marked_items (image_data s) (files s) in
  let log := outcomes shutil_move basename path_join dd sd tp w2 in
  let nd := length (filter (λ x : string * action, x.2 = ActDelete) tp) in
  let ns := length (filter (λ x : string * action, x.2 = ActSelect) tp) in
  tp ≠ [] →
  (∀ x, x ∈ log → x.2 = true) →
  ∃ s' w',
    execute_actions path_exists makedirs shutil_move basename path_join s w
      = Some (s', w') ∧
    move_all shutil_move basename path_join dd sd tp w2 = Some w' ∧
    (∀ f d act,
       f ∈ files s → image_data s !! f = Some d → mark_of d = Some act →
       (f, act) ∈ tp ∧ (f ∉ files s') ∧
       image_data s' !! f = None ∧ thumbnail_cache s' !! f = None) ∧
    (∀ f d,
       f ∈ files s → image_data s !! f = Some d → mark_of d = None →
       f ∈ files s' ∧ image_data s' !! f = Some d) ∧
    files s' = filter (λ f, f ∉ tp.*1) (files s) ∧
    status_label s' = StatusDone nd ns ∧
    (length (files s') + nd + ns)%nat = length (files s) ∧
    (files s' ≠ [] → (current_idx s' < length (files s'))%nat) ∧
    (files s' = [] → current_idx s' = 0%nat) ∧
    (nd = 2%nat → ns = 1%nat →
     status_label s' = StatusDone 2 1 ∧
     (length (files s') + 3)%nat = length (files s)).
Proof.
  intros Hwf H1 H2 dd sd tp log nd ns Hne Hall.
  assert (Hitems : log.*1 = tp) by apply outcomes_items.
  assert (Hmoved : moved_files log = tp.*1).
  { rewrite (moved_files_all log Hall). by rewrite Hitems. }
  assert (Hnd : count_moved ActDelete log = nd).
  { rewrite (count_moved_all ActDelete log Hall). by rewrite Hitems. }
  assert (Hns : count_moved ActSelect log = ns).
  { rewrite (count_moved_all ActSelect log Hall). by rewrite Hitems. }
  destruct (committed_fields s log) as (Hf & Hm & Ht & Hst & Hidx1 & Hidx2).
  rewrite Hmoved in Hf, Hm, Ht. rewrite Hnd, Hns in Hst.
  assert (Hlen : (length (files (committed s log)) + nd + ns)%nat = length (files s)).
  { rewrite Hf. unfold nd, ns.
    rewrite <- Nat.add_assoc, length_by_action.
    apply length_unmarked_marked. }
  exists (committed s log), (fs_after shutil_move basename path_join dd sd tp w2).
  split.
  { rewrite (execute_actions_spec path_exists makedirs shutil_move basename path_join
               s w w1 w2 Hwf H1 H2).
    fold tp dd sd. destruct tp; [done|]. done. }
  split; [by apply move_all_fs_after|].
  split.
  { intros f d act Hin Hd Hact.
    assert (Hitem : (f, act) ∈ tp) by (by eapply marked_items_complete).
    assert (Hfst : f ∈ tp.*1).
    { apply list_elem_of_fmap. by exists (f, act). }
    split; [done|]. split.
    - rewrite Hf. intros Hc. apply list_elem_of_filter in Hc as [Hc _]. done.
    - by rewrite Hm, Ht, !decide_True by done. }
  split.
  { intros f d Hin Hd Hnone.
    assert (Hfst : f ∉ tp.*1).
    { unfold tp. rewrite marked_items_files. intros Hc.
      apply list_elem_of_filter in Hc as [[a Ha] _].
      rewrite Hd in Ha. simpl in Ha. congruence. }
    split.
    - rewrite Hf. by apply list_elem_of_filter.
    - by rewrite Hm, decide_False. }
  split; [done|]. split; [done|]. split; [done|].
  split; [done|]. split; [done|].
  intros Hnd2 Hns1. rewrite Hst, Hnd2, Hns1. split; [done|].
  rewrite Hnd2, Hns1 in Hlen. lia.
Qed.

Lemma commit_moves_all_marked_witness :
  ∃ s' w',
    Sample.commit [] Sample.marked [] = Some (s', w') ∧
    w' = [("a.jpg", "Deleted_Images/a.jpg"); ("b.jpg", "Selected_Images/b.jpg");
          ("c.jpg", "Deleted_Images/c.jpg")] ∧
    status_label s' = StatusDone 2 1 ∧
    (length (files s') + 3)%nat = length (files Sample.marked) ∧
    image_data s' !! "b.jpg" = None ∧
    current_idx s' = 0%nat.
Proof.
  assert (Hwf : wf_store Sample.marked)
    by (apply wf_storeb_correct; vm_compute; reflexivity).
  destruct (commit_moves_all_marked Sample.path_exists Sample.makedirs
              (Sample.shutil_move []) Sample.basename Sample.path_join
              Sample.marked [] [] [] Hwf eq_refl eq_refl)
    as (s' & w' & Hrun & Hmove & Hgone & _ & Hfiles & _ & _ & _ & Hidx & Hscen).
  { vm_compute. discriminate. }
  { vm_compute. intros x Hx.
    repeat (apply elem_of_cons in Hx as [->|Hx]; [reflexivity|]).
    by apply elem_of_nil in Hx. }
  vm_compute in Hmove. injection Hmove as <-.
  destruct Hscen as [Hst Hlen]; [vm_compute; reflexivity|vm_compute; reflexivity|].
  destruct (Hgone "b.jpg" (set_to_select true
                             (ImageRecord 200%float 0.95%float false false 0 false))
              ActSelect) as (_ & _ & Hrec & _).
  { vm_compute. right. left. }
  { vm_compute. reflexivity. }
  { reflexivity. }
  exists s', [("a.jpg", "Deleted_Images/a.jpg"); ("b.jpg", "Selected_Images/b.jpg");
              ("c.jpg", "Deleted_Images/c.jpg")].
  split; [exact Hrun|]. split; [reflexivity|]. split; [exact Hst|].
  split; [exact Hlen|]. split; [exact Hrec|].
  apply Hidx. rewrite Hfiles. vm_compute. reflexivity.
Defined.

(** ** Monotone grouping *)

(** C4 does not hold after every operation: once the result of a.jpg has
    been ingested, a.jpg is at group 0 while its successor b.jpg, not yet
    analysed, is still at -1, so the group id goes down along the list. *)
Lemma ingest_leaves_later_files_below :
  ∃ st d0 d1, Sample.reachable_from_fresh st ∧
    files st.1 !! 0%nat = Some "a.jpg" ∧ files st.1 !! 1%nat = Some "b.jpg" ∧
    image_data st.1 !! "a.jpg" = Some d0 ∧ image_data st.1 !! "b.jpg" = Some d1 ∧
    group_id d0 = 0 ∧ group_id d1 = -1.
Proof.
  eexists _, _, _. split.
  - eapply (reach_step _ _ _ _ _ _ _ _ _ _
              (OpResult "a.jpg" 200%float 0%float tt)); [apply reach_init|].
    vm_compute. reflexivity.
  - vm_compute. repeat split; reflexivity.
Qed.

(** C4, amended. Right after every full re-classification the first file
    is at group 0 and, along the list, the group id never goes down and
    steps by 0 or 1.  Toggling a mark (keys D and E) changes no group id
    and not the list.  Ingesting a result changes the record of the
    ingested file only, giving it group 0 if it is the first file and
    otherwise the current group of its list predecessor or that plus one.
    A commit keeps, for every file it leaves in the list, the record and so
    the group id the file had: it does not renumber the groups. *)
Theorem grouping_monotone_after_refresh {Thumb FS} :
  (∀ (s : app Thumb),
     wf_store s →
     ∃ s', refresh_judgments_instantly s = Some s' ∧ files s' = files s ∧
       (∀ f0 rest, files s' = f0 :: rest →
          ∃ d0, image_data s' !! f0 = Some d0 ∧ group_id d0 = 0) ∧
       (∀ i f g, files s' !! i = Some f → files s' !! S i = Some g →
          ∃ df dg, image_data s' !! f = Some df ∧ image_data s' !! g = Some dg ∧
            group_id df ≤ group_id dg ∧
            (group_id dg - group_id df = 0 ∨ group_id dg - group_id df = 1))) ∧
  (∀ pe mk mv bn pj (s s' : app Thumb) (w w' : FS) k,
     k = Key_D ∨ k = Key_E →
     keyPressEvent pe mk mv bn pj s w k = Some (s', w') →
     files s' = files s ∧
     ∀ f, group_id <$> image_data s' !! f = group_id <$> image_data s !! f) ∧
  (∀ (s : app Thumb) f blur sim thumb,
     wf_store s → f ∈ files s → is_Some (files s !! current_idx s) →
     ∃ s' idx d', handle_analysis_result s f blur sim thumb = Some s' ∧
       list_index f (files s) = Some idx ∧ files s' = files s ∧
       image_data s' !! f = Some d' ∧
       (∀ f', f' ≠ f → image_data s' !! f' = image_data s !! f') ∧
       (idx = 0%nat → group_id d' = 0) ∧
       (∀ p dp, (0 < idx)%nat → files s !! (idx - 1)%nat = Some p →
          image_data s !! p = Some dp →
          group_id d' = group_id dp ∨ group_id d' = group_id dp + 1)) ∧
  (∀ pe mk mv bn pj (s : app Thumb) (w w1 w2 : FS),
     wf_store s →
     ensure_dir pe mk (delete_path s) w = Some w1 →
     ensure_dir pe mk (select_path s) w1 = Some w2 →
     ∃ s' w', execute_actions pe mk mv bn pj s w = Some (s', w') ∧
       ∀ f, f ∈ files s' →
         f ∈ files s ∧ image_data s' !! f = image_data s !! f).
Proof.
  split; [|split; [|split]]; cycle 3.
  { intros pe mk mv bn pj s w w1 w2 Hwf H1 H2.
    eexists _, _.
    split; [exact (execute_actions_spec pe mk mv bn pj s w w1 w2 Hwf H1 H2)|].
    destruct (commit_result_fields mv bn pj s w2) as (Hf & Hm & _).
    intros f Hin. unfold commit_result in Hf, Hm. rewrite Hf in Hin.
    apply list_elem_of_filter in Hin as [Hnot Hin].
    split; [done|]. by rewrite Hm, decide_False. }
  - intros s Hwf.
    destruct (refresh_spec s Hwf) as (m' & Hrun & _ & _ & Hfirst & Hadj).
    eexists. split; [exact Hrun|]. simpl. split; [done|]. split; [done|].
    intros i f g Hf Hg.
    destruct (Hadj i f g Hf Hg) as (df & dg & Hdf & Hdg & Hgid).
    exists df, dg. split; [done|]. split; [done|].
    rewrite Hgid. destruct (float_ge _ _); lia.
  - intros pe mk mv bn pj s s' w w' k Hk Hrun.
    unfold keyPressEvent in Hrun.
    destruct (files s) as [|f0 rest] eqn:Hfs.
    { injection Hrun as <- <-. by rewrite Hfs. }
    destruct ((f0 :: rest) !! current_idx s) as [fpath|]; [|done]. simpl in Hrun.
    destruct Hk as [-> | ->];
      (destruct (image_data s !! fpath) as [d|] eqn:Hd; [|done]);
      simpl in Hrun; injection Hrun as <- <-; simpl; (split; [done|]);
      intros f; (destruct (decide (fpath = f)) as [<-|Hne];
        [rewrite lookup_insert_eq, Hd; simpl
        |by rewrite lookup_insert_ne by done]).
    + unfold toggle_delete. simpl. by destruct (negb (to_delete d)).
    + unfold toggle_select. simpl. by destruct (negb (to_select d)).
  - intros s f blur sim thumb Hwf Hin Hcur.
    pose proof Hwf as [_ Hall]. destruct (Hall f Hin) as [d Hd].
    destruct (incremental_group_id_total s f
                (set_sim_prev sim (set_score blur d)) Hwf Hin)
      as (idx & g & Hidx & Hg).
    eexists _, idx, _.
    split; [by apply (handle_analysis_result_spec s f d idx g)|].
    simpl. split; [done|]. split; [done|].
    split; [by apply lookup_insert_eq|].
    split; [by intros f' Hne; rewrite lookup_insert_ne|].
    destruct Hg as [[-> ->]|(p & dp & Hpos & Hp & Hdp & ->)].
    + split; [done|]. intros p dp Hlt. lia.
    + split; [lia|]. intros p' dp' _ Hp' Hdp'.
      rewrite Hp in Hp'. injection Hp' as <-.
      rewrite Hdp in Hdp'. injection Hdp' as <-.
      simpl. destruct (float_ge _ _); [by left|by right].
Qed.

Lemma grouping_monotone_after_refresh_witness :
  (∃ s', refresh_judgments_instantly Sample.analysed = Some s' ∧
     files s' = files Sample.analysed ∧
     (∀ f0 rest, files s' = f0 :: rest →
        ∃ d0, image_data s' !! f0 = Some d0 ∧ group_id d0 = 0) ∧
     (∀ i f g, files s' !! i = Some f → files s' !! S i = Some g →
        ∃ df dg, image_data s' !! f = Some df ∧ image_data s' !! g = Some dg ∧
          group_id df ≤ group_id dg ∧
          (group_id dg - group_id df = 0 ∨ group_id dg - group_id df = 1))) ∧
  (∃ s' idx d', handle_analysis_result Sample.fresh "a.jpg" 200%float 0%float tt = Some s' ∧
     list_index "a.jpg" (files Sample.fresh) = Some idx ∧
     files s' = files Sample.fresh ∧
     image_data s' !! "a.jpg" = Some d' ∧
     (∀ f', f' ≠ "a.jpg" → image_data s' !! f' = image_data Sample.fresh !! f') ∧
     (idx = 0%nat → group_id d' = 0) ∧
     (∀ p dp, (0 < idx)%nat → files Sample.fresh !! (idx - 1)%nat = Some p →
        image_data Sample.fresh !! p = Some dp →
        group_id d' = group_id dp ∨ group_id d' = group_id dp + 1)) ∧
  (∃ s' w', Sample.press [] Sample.analysed [] Key_D = Some (s', w') ∧
     files s' = files Sample.analysed ∧
     ∀ f, group_id <$> image_data s' !! f
          = group_id <$> image_data Sample.analysed !! f) ∧
  (∃ s' w', Sample.commit ["b.jpg"] Sample.marked [] = Some (s', w') ∧
     ∀ f, f ∈ files s' →
       f ∈ files Sample.marked ∧ image_data s' !! f = image_data Sample.marked !! f).
Proof.
  split; [|split; [|split]]; cycle 3.
  { apply (proj2 (proj2 (proj2 (@grouping_monotone_after_refresh unit Sample.fs)))
             Sample.path_exists Sample.makedirs (Sample.shutil_move ["b.jpg"])
             Sample.basename Sample.path_join Sample.marked [] [] []).
    - apply wf_storeb_correct. vm_compute. reflexivity.
    - reflexivity.
    - reflexivity. }
  - apply (proj1 (@grouping_monotone_after_refresh unit Sample.fs) Sample.analysed).
    apply wf_storeb_correct. vm_compute. reflexivity.
  - apply (proj1 (proj2 (proj2 (@grouping_monotone_after_refresh unit Sample.fs)))
             Sample.fresh "a.jpg").
    + apply wf_storeb_correct. vm_compute. reflexivity.
    + vm_compute. left.
    + vm_compute. eexists. reflexivity.
  - eexists _, _. split; [vm_compute; reflexivity|].
    apply (proj1 (proj2 (@grouping_monotone_after_refresh unit Sample.fs))
             Sample.path_exists Sample.makedirs (Sample.shutil_move [])
             Sample.basename Sample.path_join Sample.analysed _ [] [] Key_D).
    + left. reflexivity.
    + vm_compute. reflexivity.
Defined.

(** ** Well-formed stores

    The stores the theorems above are stated for are the ones a session
    meets: started on a listing without repetition, every state the window
    reaches has a list without repetition and a record for every file. *)

Lemma init_app_wf {Thumb} dd sd (fs : list string) :
  NoDup fs → wf_store (@init_app Thumb dd sd fs).
Proof.
  intros Hnd. split.
  - unfold init_app, show_current_image. simpl. by destruct fs.
  - rewrite init_app_image_data.
    replace (files (@init_app Thumb dd sd fs)) with fs
      by (unfold init_app, show_current_image; simpl; by destruct fs).
    intros f Hf. exists initial_record.
    apply elem_of_list_to_map_1.
    + assert (Hkeys : ((λ f, (f, initial_record)) <$> fs).*1 = fs).
      { clear. induction fs as [|a l IH]; [done|].
        rewrite !fmap_cons. simpl. by rewrite IH. }
      by rewrite Hkeys.
    + apply list_elem_of_fmap. by exists f.
Qed.

Lemma apply_judgment_logic_true_pre {Thumb} (s s' : app Thumb) f :
  apply_judgment_logic s f true = Some s' →
  f ∈ files s ∧ files s' = files s ∧ current_idx s' = current_idx s.
Proof.
  unfold apply_judgment_logic. intros Hrun.
  destruct (image_data s !! f) as [d|]; [|done]. simpl in Hrun.
  destruct (list_index f (files s)) as [idx|] eqn:Hidx; [|done]. simpl in Hrun.
  match type of Hrun with
  | context [mbind _ ?x] => destruct x as [d1|]; [|done]
  end.
  simpl in Hrun. injection Hrun as <-. simpl.
  split; [|done]. apply list_index_lookup in Hidx.
  by eapply list_elem_of_lookup_2.
Qed.

Lemma handle_analysis_result_wf {Thumb} (s s' : app Thumb) f blur sim thumb :
  handle_analysis_result s f blur sim thumb = Some s' →
  wf_store s → wf_store s'.
Proof.
  intros Hrun Hwf.
  assert (Hpre : f ∈ files s ∧ is_Some (files s !! current_idx s)).
  { unfold handle_analysis_result in Hrun.
    destruct (image_data s !! f) as [d|]; [|done]. simpl in Hrun.
    rewrite lookup_insert_eq in Hrun. simpl in Hrun.
    destruct (apply_judgment_logic _ f true) as [s1|] eqn:Hs1; [|done].
    simpl in Hrun.
    apply apply_judgment_logic_true_pre in Hs1 as (Hin & Hfiles & Hidx).
    simpl in Hin, Hfiles, Hidx. rewrite Hfiles, Hidx in Hrun.
    destruct (files s !! current_idx s); [|done]. split; [done|by eexists]. }
  destruct Hpre as [Hin Hcur].
  destruct (handle_analysis_result_frame s f blur sim thumb Hwf Hin Hcur)
    as (s'' & Hrun' & _ & _ & Hwf' & _).
  rewrite Hrun in Hrun'. by injection Hrun' as ->.
Qed.

Lemma refresh_wf {Thumb} (s s' : app Thumb) :
  refresh_judgments_instantly s = Some s' → wf_store s → wf_store s'.
Proof.
  intros Hrun Hwf.
  destruct (refresh_spec s Hwf) as (m' & Hrun' & _ & Hin & _).
  rewrite Hrun in Hrun'. injection Hrun' as ->.
  destruct Hwf as [Hnd Hall]. split; [done|]. simpl.
  intros f Hf. destruct (Hall f Hf) as [d Hd].
  destruct (Hin f d Hf Hd) as [g Hg]. by eexists.
Qed.

Lemma wf_store_insert {Thumb} (s : app Thumb) f d d' :
  image_data s !! f = Some d → wf_store s →
  wf_store (with_image_data (<[f := d']> (image_data s)) s).
Proof.
  intros Hd [Hnd Hall]. split; [done|]. simpl. intros g Hg.
  destruct (decide (f = g)) as [<-|Hne].
  - rewrite lookup_insert_eq. by eexists.
  - rewrite lookup_insert_ne by done. by apply Hall.
Qed.

Lemma wf_store_fields {Thumb} (s s' : app Thumb) :
  files s' = files s → image_data s' = image_data s → wf_store s → wf_store s'.
Proof. intros Hf Hm [Hnd Hall]. split; rewrite ?Hf, ?Hm; done. Qed.

Section Sessions.

Context {Thumb FS : Type}.
Variable path_exists : string → FS → bool.
Variable makedirs : string → FS → option FS.
Variable shutil_move : string → string → FS → option FS.
Variable basename : string → string.
Variable path_join : string → string → string.

Lemma execute_actions_wf (s s' : app Thumb) (w w' : FS) :
  execute_actions path_exists makedirs shutil_move basename path_join s w
    = Some (s', w') →
  wf_store s → wf_store s'.
Proof.
  intros Hrun Hwf.
  destruct (ensure_dir path_exists makedirs (delete_path s) w) as [w1|] eqn:H1;
    [|by unfold execute_actions in Hrun; rewrite H1 in Hrun].
  destruct (ensure_dir path_exists makedirs (select_path s) w1) as [w2|] eqn:H2;
    [|by unfold execute_actions in Hrun; rewrite H1 in Hrun; simpl in Hrun;
         rewrite H2 in Hrun].
  rewrite (execute_actions_spec path_exists makedirs shutil_move basename path_join
             s w w1 w2 Hwf H1 H2) in Hrun.
  injection Hrun as Hs' _.
  change (commit_result shutil_move basename path_join s w2 = s') in Hs'.
  subst s'.
  destruct (commit_result_fields shutil_move basename path_join s w2) as (Hf & Hm & _).
  destruct Hwf as [Hnd Hall]. split.
  - rewrite Hf. by apply NoDup_filter.
  - intros f. rewrite Hf. intros Hin.
    apply list_elem_of_filter in Hin as [Hnot Hin].
    rewrite Hm, decide_False by done. by apply Hall.
Qed.

Lemma keyPressEvent_wf (s s' : app Thumb) (w w' : FS) k :
  keyPressEvent path_exists makedirs shutil_move basename path_join s w k
    = Some (s', w') →
  wf_store s → wf_store s'.
Proof.
  unfold keyPressEvent. intros Hrun Hwf.
  destruct (files s) as [|f0 rest] eqn:Hfs.
  { by injection Hrun as <- <-. }
  destruct ((f0 :: rest) !! current_idx s) as [fpath|]; [|done].
  simpl in Hrun. destruct k.
  - destruct (stack_index s =? 0)%nat; injection Hrun as <- <-.
    + by apply (wf_store_fields s).
    + apply (wf_store_fields s); [| |done];
        by destruct (show_current_image_fields (with_stack_index 0 s)) as (? & ? & _).
  - destruct (image_data s !! fpath) as [d|] eqn:Hd; [|done].
    injection Hrun as <- <-. by apply (wf_store_insert s fpath d).
  - destruct (image_data s !! fpath) as [d|] eqn:Hd; [|done].
    injection Hrun as <- <-. by apply (wf_store_insert s fpath d).
  - destruct (_ <? _)%nat; [|by injection Hrun as <- <-].
    injection Hrun as <- <-. simpl.
    destruct (stack_index s =? 0)%nat.
    + apply (wf_store_fields s); [| |done];
        by destruct (show_current_image_fields
                       (with_current_idx (current_idx s + 1) s)) as (? & ? & _).
    + by apply (wf_store_fields s).
  - destruct (_ <? _)%nat; [|by injection Hrun as <- <-].
    injection Hrun as <- <-. simpl.
    destruct (stack_index s =? 0)%nat.
    + apply (wf_store_fields s); [| |done];
        by destruct (show_current_image_fields
                       (with_current_idx (current_idx s - 1) s)) as (? & ? & _).
    + by apply (wf_store_fields s).
  - by eapply execute_actions_wf.
  - by injection Hrun as <- <-.
Qed.

(** Every state of a session started on a listing without repetition is
    well formed. *)
Lemma reachable_wf dd sd (fs : list string) (w0 : FS) (st : app Thumb * FS) :
  NoDup fs →
  reachable path_exists makedirs shutil_move basename path_join dd sd fs w0 st →
  wf_store st.1.
Proof.
  intros Hnd. induction 1 as [|[s w] o [s' w'] _ IH Hrun].
  - by apply init_app_wf.
  - simpl in *. destruct o as [fpath b si t|v|v|k|index]; simpl in Hrun.
    + destruct (handle_analysis_result _ _ _ _ _) as [s1|] eqn:Hs1; [|done].
      injection Hrun as <- <-. by eapply handle_analysis_result_wf.
    + unfold set_slider_blur in Hrun. case_decide.
      * by injection Hrun as <- <-.
      * destruct (refresh_judgments_instantly _) as [s1|] eqn:Hs1; [|done].
        injection Hrun as <- <-. by apply (refresh_wf _ _ Hs1).
    + unfold set_slider_sim in Hrun. case_decide.
      * by injection Hrun as <- <-.
      * destruct (refresh_judgments_instantly _) as [s1|] eqn:Hs1; [|done].
        injection Hrun as <- <-. by apply (refresh_wf _ _ Hs1).
    + by eapply keyPressEvent_wf.
    + destruct (_ <? _)%nat; injection Hrun as <- <-; [|done].
      apply (wf_store_fields s); [| |done]; unfold switch_to_single_view;
        by destruct (show_current_image_fields
                       (with_stack_index 0 (with_current_idx index s))) as (? & ? & _).
Qed.

End Sessions.

(** ** Records no classification pass has touched *)

Section Unclassified.

Context {Thumb FS : Type}.
Variable path_exists : string → FS → bool.
Variable makedirs : string → FS → option FS.
Variable shutil_move : string → string → FS → option FS.
Variable basename : string → string.
Variable path_join : string → string → string.
Implicit Types (s : app Thumb) (m : gmap string image_record).

Lemma analysis_kept_refl f m : analysis_kept f m m.
Proof. intros d Hd. by exists d. Qed.

Lemma analysis_kept_lookup f m m' :
  m' !! f = m !! f → analysis_kept f m m'.
Proof. intros Heq d Hd. rewrite Heq in Hd. by exists d. Qed.

Lemma analysis_kept_subseteq f m m' : m' ⊆ m → analysis_kept f m m'.
Proof.
  intros Hsub d Hd. exists d. split; [|done].
  by apply (lookup_weaken m' m).
Qed.

Lemma toggle_delete_analysis d :
  score (toggle_delete d) = score d ∧ sim_prev (toggle_delete d) = sim_prev d ∧
  is_blur (toggle_delete d) = is_blur d ∧ group_id (toggle_delete d) = group_id d.
Proof.
  destruct d as [sc sp del sel g b]. unfold toggle_delete. simpl.
  by destruct del.
Qed.

Lemma toggle_select_analysis d :
  score (toggle_select d) = score d ∧ sim_prev (toggle_select d) = sim_prev d ∧
  is_blur (toggle_select d) = is_blur d ∧ group_id (toggle_select d) = group_id d.
Proof.
  destruct d as [sc sp del sel g b]. unfold toggle_select. simpl.
  by destruct sel.
Qed.

Lemma analysis_kept_insert f g m d d1 :
  m !! g = Some d →
  score d1 = score d ∧ sim_prev d1 = sim_prev d ∧
  is_blur d1 = is_blur d ∧ group_id d1 = group_id d →
  analysis_kept f m (<[g := d1]> m).
Proof.
  intros Hd Heq d' Hd'. destruct (decide (g = f)) as [->|Hne].
  - rewrite lookup_insert_eq in Hd'. injection Hd' as <-. by exists d.
  - rewrite lookup_insert_ne in Hd' by done. by exists d'.
Qed.

Lemma is_Some_insert_kept f g m (d1 : image_record) :
  is_Some (m !! f) → is_Some (<[g := d1]> m !! f).
Proof.
  intros Hf. destruct (decide (g = f)) as [->|Hne].
  - rewrite lookup_insert_eq. by eexists.
  - by rewrite lookup_insert_ne.
Qed.

(** apply_judgment_logic writes the record of its own file only. *)
Lemma apply_judgment_logic_other s g b s' f :
  apply_judgment_logic s g b = Some s' → g ≠ f →
  image_data s' !! f = image_data s !! f.
Proof.
  unfold apply_judgment_logic. intros Hrun Hne.
  destruct (image_data s !! g) as [d|] eqn:Hd; [|done]. simpl in Hrun.
  destruct b.
  - destruct (list_index g (files s)) as [idx|]; [|done]. simpl in Hrun.
    match type of Hrun with
    | context [mbind _ ?x] => destruct x as [d1|] eqn:Hd1; [|done]
    end.
    simpl in Hrun. injection Hrun as <-. simpl.
    by rewrite !lookup_insert_ne.
  - injection Hrun as <-. simpl. by rewrite lookup_insert_ne.
Qed.

Lemma handle_analysis_result_other s g blur sim (thumb : Thumb) s' f :
  handle_analysis_result s g blur sim thumb = Some s' → g ≠ f →
  image_data s' !! f = image_data s !! f.
Proof.
  unfold handle_analysis_result. intros Hrun Hne.
  destruct (image_data s !! g) as [d|] eqn:Hd; [|done]. simpl in Hrun.
  rewrite lookup_insert_eq in Hrun. simpl in Hrun.
  destruct (apply_judgment_logic _ g true) as [s1|] eqn:Hs1; [|done].
  simpl in Hrun. destruct (files s1 !! current_idx s1); [|done].
  injection Hrun as <-.
  rewrite (apply_judgment_logic_other _ _ _ _ f Hs1 Hne). simpl.
  by rewrite !lookup_insert_ne.
Qed.

(** The batch move only takes records away. *)
Lemma commit_one_subseteq (st : commit_st Thumb FS) item :
  image_data (cs_app (commit_one shutil_move basename path_join st item))
  ⊆ image_data (cs_app st).
Proof.
  destruct item as [fpath act]. unfold commit_one.
  destruct (shutil_move _ _ _); [|reflexivity].
  destruct (list_remove fpath _); [|reflexivity]. simpl.
  destruct (image_data (cs_app st) !! fpath); simpl;
    [apply delete_subseteq|reflexivity].
Qed.

Lemma commit_loop_subseteq tp (st : commit_st Thumb FS) :
  image_data (cs_app (commit_loop shutil_move basename path_join tp st))
  ⊆ image_data (cs_app st).
Proof.
  revert st. induction tp as [|item tp IH]; intros st; simpl; [reflexivity|].
  etrans; [apply IH|apply commit_one_subseteq].
Qed.

Lemma execute_actions_subseteq s (w : FS) s' w' :
  execute_actions path_exists makedirs shutil_move basename path_join s w
    = Some (s', w') →
  image_data s' ⊆ image_data s.
Proof.
  unfold execute_actions. intros Hrun.
  destruct (ensure_dir _ _ _ w) as [w1|]; [|done]. simpl in Hrun.
  destruct (ensure_dir _ _ _ w1) as [w2|]; [|done]. simpl in Hrun.
  destruct (collect_marked _ _) as [tp|]; [|done]. simpl in Hrun.
  destruct tp as [|item tp].
  - by injection Hrun as <- <-.
  - injection Hrun as <- <-. simpl.
    match goal with
    | |- context [if ?c then _ else _] => destruct c
    end; rewrite ?image_data_show_current_image, image_data_clamp_current_idx;
      apply (commit_loop_subseteq (item :: tp)).
Qed.

Lemma keyPressEvent_analysis_kept s (w : FS) k s' w' f :
  keyPressEvent path_exists makedirs shutil_move basename path_join s w k
    = Some (s', w') →
  analysis_kept f (image_data s) (image_data s') ∧
  (k ≠ Key_F → is_Some (image_data s !! f) → is_Some (image_data s' !! f)).
Proof.
  unfold keyPressEvent. intros Hrun.
  destruct (files s) as [|f0 rest] eqn:Hfs.
  { injection Hrun as <- <-. split; [apply analysis_kept_refl|done]. }
  destruct ((f0 :: rest) !! current_idx s) as [fpath|]; [|done].
  simpl in Hrun. destruct k.
  - destruct (stack_index s =? 0)%nat; injection Hrun as <- <-;
      rewrite ?image_data_show_current_image; simpl;
      (split; [apply analysis_kept_refl|done]).
  - destruct (image_data s !! fpath) as [d|] eqn:Hd; [|done].
    injection Hrun as <- <-. simpl. split.
    + apply (analysis_kept_insert f fpath _ d); [done|apply toggle_delete_analysis].
    + intros _. apply is_Some_insert_kept.
  - destruct (image_data s !! fpath) as [d|] eqn:Hd; [|done].
    injection Hrun as <- <-. simpl. split.
    + apply (analysis_kept_insert f fpath _ d); [done|apply toggle_select_analysis].
    + intros _. apply is_Some_insert_kept.
  - destruct (_ <? _)%nat;
      [|injection Hrun as <- <-; split; [apply analysis_kept_refl|done]].
    injection Hrun as <- <-. simpl.
    destruct (stack_index s =? 0)%nat;
      rewrite ?image_data_show_current_image; simpl;
      (split; [apply analysis_kept_refl|done]).
  - destruct (_ <? _)%nat;
      [|injection Hrun as <- <-; split; [apply analysis_kept_refl|done]].
    injection Hrun as <- <-. simpl.
    destruct (stack_index s =? 0)%nat;
      rewrite ?image_data_show_current_image; simpl;
      (split; [apply analysis_kept_refl|done]).
  - split; [|by intros Hk].
    apply analysis_kept_subseteq. by eapply execute_actions_subseteq.
  - injection Hrun as <- <-. split; [apply analysis_kept_refl|done].
Qed.

(** An operation that does not classify [f] leaves the analysis data of
    [f] as it is, and only a commit can take the record away. *)
Lemma run_op_analysis_kept (o : op) s (w : FS) s' w' f :
  classifies s o f = false →
  run_op path_exists makedirs shutil_move basename path_join o (s, w)
    = Some (s', w') →
  analysis_kept f (image_data s) (image_data s') ∧
  (o ≠ OpKey Key_F → is_Some (image_data s !! f) → is_Some (image_data s' !! f)).
Proof.
  intros Hcl Hrun. destruct o as [fpath b si t|v|v|k|index]; simpl in Hrun, Hcl.
  - apply bool_decide_eq_false in Hcl.
    destruct (handle_analysis_result _ _ _ _ _) as [s1|] eqn:Hs1; [|done].
    injection Hrun as <- <-.
    pose proof (handle_analysis_result_other _ _ _ _ _ _ f Hs1 Hcl) as Heq.
    split; [by apply analysis_kept_lookup|]. intros _. by rewrite Heq.
  - apply bool_decide_eq_false in Hcl. unfold set_slider_blur in Hrun.
    case_decide; [|done].
    injection Hrun as <- <-. split; [apply analysis_kept_refl|done].
  - apply bool_decide_eq_false in Hcl. unfold set_slider_sim in Hrun.
    case_decide; [|done].
    injection Hrun as <- <-. split; [apply analysis_kept_refl|done].
  - destruct (keyPressEvent_analysis_kept s w k s' w' f Hrun) as [Hkept Hpres].
    split; [done|]. intros Hne. apply Hpres. intros ->. by apply Hne.
  - destruct (_ <? _)%nat; injection Hrun as <- <-;
      [|split; [apply analysis_kept_refl|done]].
    unfold switch_to_single_view. rewrite image_data_show_current_image. simpl.
    split; [apply analysis_kept_refl|done].
Qed.

(** A record no pass has classified still is the initial one, up to its
    marks. *)
Lemma unclassified_record dd sd (fs : list string) (w0 : FS) f
    (st : app Thumb * FS) d :
  unclassified path_exists makedirs shutil_move basename path_join dd sd fs w0 f st →
  image_data st.1 !! f = Some d →
  score d = 0%float ∧ sim_prev d = 0%float ∧ is_blur d = false ∧ group_id d = -1.
Proof.
  intros Hreach. revert d.
  induction Hreach as [|[s w] o [s' w'] _ IH Hcl Hrun]; intros d Hd.
  - simpl in Hd. by apply init_app_record in Hd as ->.
  - simpl in *.
    destruct (run_op_analysis_kept o s w s' w' f Hcl Hrun) as [Hkept _].
    destruct (Hkept d Hd) as (d0 & Hd0 & -> & -> & -> & ->). by apply IH.
Qed.

End Unclassified.

(** C2, amended. A record starts with is_blur = false and a score of 0.0;
    the full pass sets the flag of a file whose score is still 0.0 to
    (0.0 < blur_threshold), which over the slider range 0-500 is false at
    threshold 0 only and true from 1 on.  Until a classification pass
    touches the record, that is a result for the file itself or a slider
    whose value changes, the record keeps its flag and its scores: keys,
    clicks, results of other files and sliders set to the value they have
    leave them as they are, only a commit can take the record away, and
    in every state reached without such a pass the record is unflagged
    with its scores at 0.0. *)
Theorem unanalysed_record_blur_flag {Thumb FS} pe mk mv bn pj :
  (∀ dd sd fs f d,
     image_data (@init_app Thumb dd sd fs) !! f = Some d →
     is_blur d = false ∧ score d = 0%float) ∧
  (∀ (s : app Thumb) f d,
     wf_store s → f ∈ files s → image_data s !! f = Some d →
     score d = 0%float → 0 ≤ slider_blur s ≤ 500 →
     ∃ s' d', refresh_judgments_instantly s = Some s' ∧
       image_data s' !! f = Some d' ∧ score d' = 0%float ∧
       is_blur d' = bool_decide (1 ≤ slider_blur s)) ∧
  (∀ (s s' : app Thumb) (w w' : FS) o f,
     classifies s o f = false →
     run_op pe mk mv bn pj o (s, w) = Some (s', w') →
     (∀ d', image_data s' !! f = Some d' →
        ∃ d, image_data s !! f = Some d ∧ is_blur d' = is_blur d ∧
             score d' = score d ∧ sim_prev d' = sim_prev d) ∧
     (o ≠ OpKey Key_F → is_Some (image_data s !! f) →
      is_Some (image_data s' !! f))) ∧
  (∀ dd sd fs (w0 : FS) f (st : app Thumb * FS) d,
     unclassified pe mk mv bn pj dd sd fs w0 f st →
     image_data st.1 !! f = Some d →
     is_blur d = false ∧ score d = 0%float ∧ sim_prev d = 0%float).
Proof.
  split; [|split; [|split]].
  - intros dd sd fs f d Hd. by rewrite (init_app_record _ _ _ _ _ Hd).
  - intros s f d Hwf Hf Hd Hscore Hth.
    destruct (refresh_spec s Hwf) as (m' & Hrun & _ & Hin & _).
    destruct (Hin f d Hf Hd) as [g Hg].
    eexists _, _. split; [exact Hrun|]. split; [exact Hg|].
    simpl. split; [done|]. rewrite Hscore. by apply float_lt_int_zero.
  - intros s s' w w' o f Hcl Hrun.
    destruct (run_op_analysis_kept pe mk mv bn pj o s w s' w' f Hcl Hrun)
      as [Hkept Hpres].
    split; [|done]. intros d' Hd'.
    destruct (Hkept d' Hd') as (d & Hd & Hsc & Hsp & Hb & _). by exists d.
  - intros dd sd fs w0 f st d Hreach Hd.
    destruct (unclassified_record pe mk mv bn pj dd sd fs w0 f st d Hreach Hd)
      as (Hsc & Hsp & Hb & _).
    done.
Qed.

Lemma unanalysed_record_blur_flag_witness :
  (is_blur initial_record = false ∧ score initial_record = 0%float) ∧
  (∃ s' d', refresh_judgments_instantly Sample.fresh = Some s' ∧
     image_data s' !! "b.jpg" = Some d' ∧ score d' = 0%float ∧
     is_blur d' = bool_decide (1 ≤ slider_blur Sample.fresh)) ∧
  (∃ s', Sample.press [] Sample.fresh [] Key_D = Some (s', []) ∧
     (∀ d', image_data s' !! "a.jpg" = Some d' →
        ∃ d, image_data Sample.fresh !! "a.jpg" = Some d ∧ is_blur d' = is_blur d ∧
             score d' = score d ∧ sim_prev d' = sim_prev d) ∧
     is_Some (image_data s' !! "a.jpg")) ∧
  (∃ s', handle_analysis_result Sample.fresh "a.jpg" 10%float 0%float tt = Some s' ∧
     ∀ d, image_data s' !! "b.jpg" = Some d →
       is_blur d = false ∧ score d = 0%float ∧ sim_prev d = 0%float).
Proof.
  pose proof (@unanalysed_record_blur_flag unit Sample.fs Sample.path_exists
                Sample.makedirs (Sample.shutil_move []) Sample.basename
                Sample.path_join) as (Hinit & Hpass & Hstep & Hsession).
  split; [|split; [|split]].
  - apply (Hinit "Deleted_Images"%string "Selected_Images"%string Sample.folder
             "b.jpg"%string).
    vm_compute. reflexivity.
  - apply (Hpass Sample.fresh "b.jpg"%string initial_record).
    + apply wf_storeb_correct. vm_compute. reflexivity.
    + vm_compute. right. left.
    + vm_compute. reflexivity.
    + reflexivity.
    + vm_compute. split; congruence.
  - destruct (Sample.press [] Sample.fresh [] Key_D) as [[s' w']|] eqn:Hrun;
      [|vm_compute in Hrun; discriminate Hrun].
    assert (Hw : w' = []) by (vm_compute in Hrun; by injection Hrun as _ <-).
    subst w'. exists s'. split; [reflexivity|].
    destruct (Hstep Sample.fresh s' [] [] (OpKey Key_D) "a.jpg"%string)
      as [Hkept Hpres]; [reflexivity|exact Hrun|].
    split; [exact Hkept|]. apply Hpres; [discriminate|].
    vm_compute. eexists. reflexivity.
  - destruct (handle_analysis_result Sample.fresh "a.jpg" 10%float 0%float tt)
      as [s'|] eqn:Hrun; [|vm_compute in Hrun; discriminate Hrun].
    exists s'. split; [reflexivity|]. intros d Hd.
    apply (Hsession "Deleted_Images"%string "Selected_Images"%string Sample.folder []
             "b.jpg"%string (s', []) d); [|exact Hd].
    apply (unclassified_step _ _ _ _ _ _ _ _ _ _ (Sample.fresh, [])
             (OpResult "a.jpg" 10%float 0%float tt)).
    + apply unclassified_init.
    + reflexivity.
    + unfold run_op. rewrite Hrun. reflexivity.
Defined.

(** * Further properties of the code *)

(** ** Drawing decisions *)


Lemma build_grid_from_spec {Thumb} (blank : Thumb) (s : app Thumb) (fs : list string) :
  ∀ i, (∀ f, f ∈ fs → is_Some (image_data s !! f)) →
    ∃ cells, build_grid_from blank s i fs = Some cells ∧
      length cells = length fs ∧
      ∀ k c, cells !! k = Some c →
        fs !! k = Some (cell_path c) ∧ cell_index c = (i + k)%nat ∧
        cell_row c = ((i + k) / 5)%nat ∧ cell_col c = ((i + k) mod 5)%nat ∧
        get_grid_style s (cell_path c) = Some (cell_style c) ∧
        cell_pixmap c = default blank (thumbnail_cache s !! cell_path c).
Proof.
  induction fs as [|f fs IH]; intros i Hall.
  - exists []. split; [done|]. split; [done|]. intros k c Hk. done.
  - destruct (Hall f) as [d Hd]; [by left|].
    assert (Hstyle : is_Some (get_grid_style s f)).
    { unfold get_grid_style. rewrite Hd. simpl.
      destruct (to_delete d), (to_select d), (is_blur d), (is_burst s d);
        by eexists. }
    destruct Hstyle as [style Hstyle].
    destruct (IH (S i)) as (cells & Hrun & Hlen & Hcells).
    { intros g Hg. apply Hall. by right. }
    eexists. split.
    { cbn [build_grid_from]. rewrite Hstyle. simpl. rewrite Hrun. simpl. done. }
    split; [simpl; by rewrite Hlen|].
    intros [|k] c Hk; simpl in Hk.
    + injection Hk as <-. simpl. rewrite Nat.add_0_r. done.
    + destruct (Hcells k c Hk) as (H1 & H2 & H3 & H4 & H5 & H6).
      replace (i + S k)%nat with (S i + k)%nat by lia. done.
Qed.

(** X2. On a well-formed store build_grid_view makes one cell per file,
    in list order: the cell of position k carries that file, its style and
    its thumbnail (the blank one if none is cached), passes k to its click
    handler, and sits in row k // 5 and column k % 5, so the column is
    below 5 and no two cells share a place.  Clicking a cell shows the
    single view on the file of that cell. *)
Theorem build_grid_view_cells {Thumb} (blank : Thumb) (s : app Thumb) :
  wf_store s →
  ∃ cells, build_grid_view blank s = Some cells ∧
    length cells = length (files s) ∧
    (∀ k c, cells !! k = Some c →
       files s !! k = Some (cell_path c) ∧ cell_index c = k ∧
       get_grid_style s (cell_path c) = Some (cell_style c) ∧
       cell_pixmap c = default blank (thumbnail_cache s !! cell_path c) ∧
       (cell_col c < 5)%nat ∧ k = (5 * cell_row c + cell_col c)%nat ∧
       stack_index (switch_to_single_view s (cell_index c)) = 0%nat ∧
       files (switch_to_single_view s (cell_index c))
         !! current_idx (switch_to_single_view s (cell_index c))
       = Some (cell_path c)) ∧
    (∀ k k' c c', cells !! k = Some c → cells !! k' = Some c' →
       cell_row c = cell_row c' → cell_col c = cell_col c' → k = k').
Proof.
  intros [_ Hall].
  destruct (build_grid_from_spec blank s (files s) 0 Hall) as (cells & Hrun & Hlen & Hc).
  exists cells. split; [done|]. split; [done|]. split.
  - intros k c Hk. destruct (Hc k c Hk) as (H1 & H2 & H3 & H4 & H5 & H6).
    rewrite Nat.add_0_l in H2, H3, H4.
    split; [done|]. split; [done|]. split; [done|]. split; [done|].
    split; [rewrite H4; by apply Nat.mod_upper_bound|].
    split; [rewrite H3, H4; by apply Nat.div_mod|].
    unfold switch_to_single_view, show_current_image. rewrite H2.
    clear Hall Hrun Hlen Hc.
    destruct s as [fs ci m gc tc dp sp sb ss si sl]. simpl in *.
    destruct fs; [by rewrite lookup_nil in H1|]. done.
  - intros k k' c c' Hk Hk' Hrow Hcol.
    destruct (Hc k c Hk) as (_ & _ & H3 & H4 & _).
    destruct (Hc k' c' Hk') as (_ & _ & H3' & H4' & _).
    rewrite Nat.add_0_l in H3, H4, H3', H4'.
    rewrite (Nat.div_mod k 5), (Nat.div_mod k' 5) by done. congruence.
Qed.

Lemma build_grid_view_cells_witness :
  ∃ cells, build_grid_view tt Sample.analysed = Some cells ∧
    length cells = 3%nat ∧
    (λ c, (cell_path c, cell_index c, cell_row c, cell_col c)) <$> cells
    = [("a.jpg", 0, 0, 0); ("b.jpg", 1, 0, 1); ("c.jpg", 2, 0, 2)]%nat.
Proof.
  destruct (build_grid_view_cells tt Sample.analysed) as (cells & Hrun & Hlen & _).
  { apply wf_storeb_correct. vm_compute. reflexivity. }
  exists cells. split; [exact Hrun|]. split; [exact Hlen|].
  vm_compute in Hrun. injection Hrun as <-. reflexivity.
Defined.

(** ** Keys *)

Lemma show_current_image_rest {Thumb} (s : app Thumb) :
  group_counts (show_current_image s) = group_counts s ∧
  stack_index (show_current_image s) = stack_index s ∧
  slider_blur (show_current_image s) = slider_blur s ∧
  slider_sim (show_current_image s) = slider_sim s.
Proof. unfold show_current_image. destruct s as [fs ?]. simpl. by destruct fs. Qed.

Lemma keyPressEvent_Right {Thumb FS} pe mk mv bn pj (s : app Thumb) (w : FS) :
  (current_idx s + 1 < length (files s))%nat →
  keyPressEvent pe mk mv bn pj s w Key_Right
  = Some (let s1 := with_current_idx (current_idx s + 1) s in
          if (stack_index s1 =? 0)%nat then show_current_image s1 else s1, w).
Proof.
  intros Hlt. unfold keyPressEvent.
  destruct (lookup_lt_is_Some_2 (files s) (current_idx s)) as [f Hf]; [lia|].
  rewrite Hf. simpl.
  destruct (Nat.ltb_spec (current_idx s) (length (files s) - 1)); [|lia].
  destruct (files s); [simpl in Hlt; lia|done].
Qed.

Lemma keyPressEvent_Left {Thumb FS} pe mk mv bn pj (s : app Thumb) (w : FS) :
  (0 < current_idx s < length (files s))%nat →
  keyPressEvent pe mk mv bn pj s w Key_Left
  = Some (let s1 := with_current_idx (current_idx s - 1) s in
          if (stack_index s1 =? 0)%nat then show_current_image s1 else s1, w).
Proof.
  intros Hlt. unfold keyPressEvent.
  destruct (lookup_lt_is_Some_2 (files s) (current_idx s)) as [f Hf]; [lia|].
  rewrite Hf. simpl.
  destruct (Nat.ltb_spec 0 (current_idx s)); [|lia].
  destruct (files s); [simpl in Hlt; lia|done].
Qed.

(** X3. The arrow keys never leave the list: Right on a position that is
    not the last moves to the next file and Left brings the view back, the
    list, the records and the counts being untouched; Right on the last
    file and Left on the first change nothing.  With an empty list every
    key, the commit key included, is ignored: the store and the file
    system are returned as they are, no directory being made. *)
Theorem arrow_keys_stay_in_list {Thumb FS} pe mk mv bn pj (s : app Thumb) (w : FS) :
  ((current_idx s + 1 < length (files s))%nat →
   ∃ s1 s2,
     keyPressEvent pe mk mv bn pj s w Key_Right = Some (s1, w) ∧
     current_idx s1 = (current_idx s + 1)%nat ∧
     keyPressEvent pe mk mv bn pj s1 w Key_Left = Some (s2, w) ∧
     current_idx s2 = current_idx s ∧
     files s2 = files s ∧ image_data s2 = image_data s ∧
     group_counts s2 = group_counts s ∧ thumbnail_cache s2 = thumbnail_cache s) ∧
  ((current_idx s + 1)%nat = length (files s) →
   keyPressEvent pe mk mv bn pj s w Key_Right = Some (s, w)) ∧
  (files s ≠ [] → current_idx s = 0%nat →
   keyPressEvent pe mk mv bn pj s w Key_Left = Some (s, w)) ∧
  (files s = [] → ∀ k, keyPressEvent pe mk mv bn pj s w k = Some (s, w)).
Proof.
  split; [|split; [|split]].
  - intros Hlt.
    set (s1 := let s1 := with_current_idx (current_idx s + 1) s in
               if (stack_index s1 =? 0)%nat then show_current_image s1 else s1).
    assert (Hs1 : files s1 = files s ∧ image_data s1 = image_data s ∧
                  thumbnail_cache s1 = thumbnail_cache s ∧
                  current_idx s1 = (current_idx s + 1)%nat ∧
                  group_counts s1 = group_counts s).
    { unfold s1. cbv zeta. destruct (_ =? _)%nat; [|done].
      destruct (show_current_image_fields
                  (with_current_idx (current_idx s + 1) s)) as (-> & -> & -> & ->).
      by destruct (show_current_image_rest
                     (with_current_idx (current_idx s + 1) s)) as (-> & _). }
    destruct Hs1 as (Hf1 & Hm1 & Ht1 & Hi1 & Hg1).
    set (s2 := let s2 := with_current_idx (current_idx s1 - 1) s1 in
               if (stack_index s2 =? 0)%nat then show_current_image s2 else s2).
    assert (Hs2 : files s2 = files s1 ∧ image_data s2 = image_data s1 ∧
                  thumbnail_cache s2 = thumbnail_cache s1 ∧
                  current_idx s2 = (current_idx s1 - 1)%nat ∧
                  group_counts s2 = group_counts s1).
    { unfold s2. cbv zeta. destruct (_ =? _)%nat; [|done].
      destruct (show_current_image_fields
                  (with_current_idx (current_idx s1 - 1) s1)) as (-> & -> & -> & ->).
      by destruct (show_current_image_rest
                     (with_current_idx (current_idx s1 - 1) s1)) as (-> & _). }
    destruct Hs2 as (Hf2 & Hm2 & Ht2 & Hi2 & Hg2).
    exists s1, s2.
    split; [by apply keyPressEvent_Right|]. split; [done|].
    split; [apply keyPressEvent_Left; rewrite Hf1, Hi1; lia|].
    rewrite Hi2, Hi1, Hf2, Hm2, Hg2, Ht2.
    split; [lia|]. done.
  - intros Heq. unfold keyPressEvent.
    destruct (lookup_lt_is_Some_2 (files s) (current_idx s)) as [f Hf]; [lia|].
    rewrite Hf. simpl.
    destruct (Nat.ltb_spec (current_idx s) (length (files s) - 1)); [lia|].
    by destruct (files s).
  - intros Hne Hidx. unfold keyPressEvent. rewrite Hidx.
    destruct (files s) as [|f0 rest]; done.
  - intros Hnil k. unfold keyPressEvent. by rewrite Hnil.
Qed.

Lemma arrow_keys_stay_in_list_witness :
  (∃ s1 s2,
     Sample.press [] Sample.analysed [] Key_Right = Some (s1, []) ∧
     current_idx s1 = 1%nat ∧
     Sample.press [] s1 [] Key_Left = Some (s2, []) ∧
     current_idx s2 = 0%nat ∧ files s2 = files Sample.analysed ∧
     image_data s2 = image_data Sample.analysed ∧
     group_counts s2 = group_counts Sample.analysed ∧
     thumbnail_cache s2 = thumbnail_cache Sample.analysed) ∧
  Sample.press [] Sample.analysed [] Key_Left = Some (Sample.analysed, []) ∧
  Sample.press [] (with_current_idx 2 Sample.analysed) [] Key_Right
    = Some (with_current_idx 2 Sample.analysed, []) ∧
  Sample.press [] (init_app "d" "s" []) [] Key_F = Some (init_app "d" "s" [], []).
Proof.
  split; [|split; [|split]].
  - apply (proj1 (arrow_keys_stay_in_list Sample.path_exists Sample.makedirs
                    (Sample.shutil_move []) Sample.basename Sample.path_join
                    Sample.analysed [])).
    vm_compute. lia.
  - apply (proj1 (proj2 (proj2 (arrow_keys_stay_in_list Sample.path_exists
                    Sample.makedirs (Sample.shutil_move []) Sample.basename
                    Sample.path_join Sample.analysed [])))).
    + vm_compute. discriminate.
    + reflexivity.
  - apply (proj1 (proj2 (arrow_keys_stay_in_list Sample.path_exists
                    Sample.makedirs (Sample.shutil_move []) Sample.basename
                    Sample.path_join (with_current_idx 2 Sample.analysed) []))).
    reflexivity.
  - exact (proj2 (proj2 (proj2 (arrow_keys_stay_in_list Sample.path_exists
                    Sample.makedirs (Sample.shutil_move []) Sample.basename
                    Sample.path_join (init_app "d" "s" []) []))) eq_refl Key_F).
Defined.

(** X4. Pressing D twice on the displayed file leaves its delete mark as
    it was and its select mark cleared, and pressing E twice leaves its
    select mark as it was and its delete mark cleared: a file with at most
    its own mark gets its record back, while a file carrying the other mark
    ends unmarked.  No other record changes. *)
Theorem double_toggle {Thumb FS} pe mk mv bn pj (s : app Thumb) (w : FS) f d :
  files s !! current_idx s = Some f → image_data s !! f = Some d →
  (∃ s1 s2,
     keyPressEvent pe mk mv bn pj s w Key_D = Some (s1, w) ∧
     keyPressEvent pe mk mv bn pj s1 w Key_D = Some (s2, w) ∧
     image_data s2 = <[f := set_to_select false d]> (image_data s) ∧
     (to_select d = false → image_data s2 = image_data s)) ∧
  (∃ s1 s2,
     keyPressEvent pe mk mv bn pj s w Key_E = Some (s1, w) ∧
     keyPressEvent pe mk mv bn pj s1 w Key_E = Some (s2, w) ∧
     image_data s2 = <[f := set_to_delete false d]> (image_data s) ∧
     (to_delete d = false → image_data s2 = image_data s)).
Proof.
  intros Hf Hd. split.
  - eexists _, _. split; [by apply keyPressEvent_D|].
    split.
    { apply keyPressEvent_D; simpl; [done|by apply lookup_insert_eq]. }
    simpl. rewrite insert_insert_eq.
    assert (Heq : toggle_delete (toggle_delete d) = set_to_select false d).
    { destruct d as [sc sp del sel g b]. by destruct del, sel. }
    rewrite Heq. split; [done|].
    intros Hsel. apply insert_id. rewrite Hd. f_equal.
    destruct d as [sc sp del sel g b]. simpl in Hsel. by subst.
  - eexists _, _. split; [by apply keyPressEvent_E|].
    split.
    { apply keyPressEvent_E; simpl; [done|by apply lookup_insert_eq]. }
    simpl. rewrite insert_insert_eq.
    assert (Heq : toggle_select (toggle_select d) = set_to_delete false d).
    { destruct d as [sc sp del sel g b]. by destruct del, sel. }
    rewrite Heq. split; [done|].
    intros Hdel. apply insert_id. rewrite Hd. f_equal.
    destruct d as [sc sp del sel g b]. simpl in Hdel. by subst.
Qed.

Lemma double_toggle_witness :
  ∃ s1 s2,
    Sample.press [] Sample.marked [] Key_D = Some (s1, []) ∧
    Sample.press [] s1 [] Key_D = Some (s2, []) ∧
    image_data s2 = image_data Sample.marked.
Proof.
  destruct (double_toggle Sample.path_exists Sample.makedirs (Sample.shutil_move [])
              Sample.basename Sample.path_join Sample.marked [] "a.jpg"
              (set_to_delete true (ImageRecord 200%float 0%float false false 0 false)))
    as [(s1 & s2 & H1 & H2 & _ & Hsame) _].
  { vm_compute. reflexivity. }
  { vm_compute. reflexivity. }
  exists s1, s2. split; [exact H1|]. split; [exact H2|].
  apply Hsame. reflexivity.
Defined.

(** ** Commit: edges *)

Lemma marked_items_unmarked (m : gmap string image_record) (fs : list string) :
  (∀ f d, f ∈ fs → m !! f = Some d → to_delete d = false ∧ to_select d = false) →
  marked_items m fs = [].
Proof.
  induction fs as [|f fs IH]; intros Hall; [done|].
  unfold marked_items in *. simpl.
  destruct (m !! f) as [d|] eqn:Hd; simpl.
  - destruct (Hall f d) as [Hdel Hsel]; [by left|done|].
    unfold mark_of. rewrite Hdel, Hsel. simpl.
    apply IH. intros g dg Hg. apply Hall. by right.
  - apply IH. intros g dg Hg. apply Hall. by right.
Qed.

Lemma moved_entry_moved (log : list (string * action * bool)) f act :
  (f, act, true) ∈ log → f ∈ moved_files log.
Proof.
  intros Hin. unfold moved_files. apply list_elem_of_fmap.
  exists (f, act, true). split; [done|]. by apply list_elem_of_filter.
Qed.

(** X5. A commit on a store without marks first makes sure the two
    directories are there, creating the missing ones, and then returns the
    store as it is, having tried no move.  When a directory can neither be
    found nor made, the commit raises before any file is looked at. *)
Theorem commit_without_marks {Thumb FS} pe mk mv bn pj (s : app Thumb) (w : FS) :
  (∀ w1 w2,
     wf_store s →
     (∀ f d, f ∈ files s → image_data s !! f = Some d →
             to_delete d = false ∧ to_select d = false) →
     ensure_dir pe mk (delete_path s) w = Some w1 →
     ensure_dir pe mk (select_path s) w1 = Some w2 →
     execute_actions pe mk mv bn pj s w = Some (s, w2) ∧
     (pe (delete_path s) w = false → mk (delete_path s) w = Some w1) ∧
     (pe (select_path s) w1 = false → mk (select_path s) w1 = Some w2)) ∧
  (pe (delete_path s) w = false → mk (delete_path s) w = None →
   execute_actions pe mk mv bn pj s w = None) ∧
  (∀ w1, ensure_dir pe mk (delete_path s) w = Some w1 →
     pe (select_path s) w1 = false → mk (select_path s) w1 = None →
     execute_actions pe mk mv bn pj s w = None).
Proof.
  split; [|split].
  - intros w1 w2 Hwf Hun H1 H2.
    rewrite (execute_actions_spec pe mk mv bn pj s w w1 w2 Hwf H1 H2).
    rewrite (marked_items_unmarked _ _ Hun). split; [done|].
    unfold ensure_dir in H1, H2. split.
    + intros Hpe. by rewrite Hpe in H1.
    + intros Hpe. by rewrite Hpe in H2.
  - intros Hpe Hmk. unfold execute_actions, ensure_dir. by rewrite Hpe, Hmk.
  - intros w1 H1 Hpe Hmk. unfold execute_actions. rewrite H1. simpl.
    unfold ensure_dir. by rewrite Hpe, Hmk.
Qed.

Lemma commit_without_marks_witness :
  Sample.commit [] Sample.analysed [] = Some (Sample.analysed, []).
Proof.
  apply (proj1 (commit_without_marks Sample.path_exists Sample.makedirs
                  (Sample.shutil_move []) Sample.basename Sample.path_join
                  Sample.analysed []) [] []).
  - apply wf_storeb_correct. vm_compute. reflexivity.
  - intros f d Hf Hd. vm_compute in Hf.
    repeat (apply elem_of_cons in Hf as [->|Hf];
            [vm_compute in Hd; injection Hd as <-; split; reflexivity|]).
    destruct (proj1 (elem_of_nil _) Hf).
  - reflexivity.
  - reflexivity.
Defined.

(** X6. Once a commit has moved a file, a result of the analysis thread
    that arrives for that file finds no record and raises, whatever its
    scores; results for the files the commit left are still taken. *)
Theorem late_result_after_commit {Thumb FS} pe mk mv bn pj
    (s : app Thumb) (w w1 w2 : FS) :
  wf_store s →
  ensure_dir pe mk (delete_path s) w = Some w1 →
  ensure_dir pe mk (select_path s) w1 = Some w2 →
  ∃ s' w',
    execute_actions pe mk mv bn pj s w = Some (s', w') ∧
    (∀ f act blur sim thumb,
       (f, act, true) ∈ outcomes mv bn pj (delete_path s) (select_path s)
                          (marked_items (image_data s) (files s)) w2 →
       image_data s' !! f = None ∧
       handle_analysis_result s' f blur sim thumb = None) ∧
    (∀ f blur sim thumb,
       f ∈ files s' → is_Some (files s' !! current_idx s') →
       is_Some (handle_analysis_result s' f blur sim thumb)).
Proof.
  intros Hwf H1 H2.
  exists (commit_result mv bn pj s w2),
         (fs_after mv bn pj (delete_path s) (select_path s)
            (marked_items (image_data s) (files s)) w2).
  split; [exact (execute_actions_spec pe mk mv bn pj s w w1 w2 Hwf H1 H2)|].
  destruct (commit_result_fields mv bn pj s w2) as (_ & Hm & _).
  split.
  - intros f act blur sim thumb Hin.
    assert (Hnone : image_data (commit_result mv bn pj s w2) !! f = None).
    { rewrite Hm. rewrite decide_True; [done|]. by eapply moved_entry_moved. }
    split; [done|]. unfold handle_analysis_result. by rewrite Hnone.
  - intros f blur sim thumb Hin Hcur.
    assert (Hwf' : wf_store (commit_result mv bn pj s w2)).
    { eapply (execute_actions_wf pe mk mv bn pj s _ w); [|done].
      exact (execute_actions_spec pe mk mv bn pj s w w1 w2 Hwf H1 H2). }
    destruct (handle_analysis_result_frame _ f blur sim thumb Hwf' Hin Hcur)
      as (s'' & Hrun & _). rewrite Hrun. by eexists.
Qed.

Lemma late_result_after_commit_witness :
  ∃ s' w',
    Sample.commit ["b.jpg"] Sample.marked [] = Some (s', w') ∧
    handle_analysis_result s' "a.jpg" 10%float 0%float tt = None ∧
    is_Some (handle_analysis_result s' "b.jpg" 10%float 0%float tt).
Proof.
  destruct (late_result_after_commit Sample.path_exists Sample.makedirs
              (Sample.shutil_move ["b.jpg"]) Sample.basename Sample.path_join
              Sample.marked [] [] [])
    as (s' & w' & Hrun & Hgone & Hkept).
  { apply wf_storeb_correct. vm_compute. reflexivity. }
  { reflexivity. }
  { reflexivity. }
  exists s', w'. split; [exact Hrun|]. split.
  - apply (Hgone "a.jpg" ActDelete). vm_compute. left.
  - vm_compute in Hrun. injection Hrun as <- <-.
    apply Hkept; vm_compute; [left|eexists; reflexivity].
Defined.

(** ** The analysis thread: stopping and progress *)

Section AnalyzerMore.

Context {Img Thumb : Type}.
Variable imread : string → option Img.
Variable make_thumbnail : Img → Thumb.
Variable sim_sample : Img → Img.
Variable compare_hist : Img → Img → float.
Variable calculate_blur : Img → float.

#[local] Abbreviation expected_from' :=
  (expected_from imread make_thumbnail sim_sample compare_hist calculate_blur).

Lemma expected_from_app total (l1 l2 pre : list string) :
  expected_from' total pre (l1 ++ l2)
  = expected_from' total pre l1 ++ expected_from' total (pre ++ l1) l2.
Proof.
  revert pre. induction l1 as [|f l1 IH]; intros pre.
  - simpl. by rewrite app_nil_r.
  - simpl. rewrite IH, <- !app_assoc. done.
Qed.

(** The loop when the flag reads True in every round before [k], and
    round [k] either reads False or lies beyond the list. *)
Lemma run_from_upto (is_running : nat → bool) (k total : nat) (fs : list string) :
  (∀ j, (j < k)%nat → is_running j = true) →
  ∀ pre, (length pre ≤ k)%nat →
    is_running k = false ∨ (length pre + length fs ≤ k)%nat →
    run_from imread make_thumbnail sim_sample compare_hist calculate_blur is_running
      total (length pre) fs (sim_sample <$> last_loaded imread pre)
    = expected_from' total pre (take (k - length pre) fs).
Proof.
  intros Hbefore.
  induction fs as [|f fs IH]; intros pre Hle Hend.
  - by rewrite take_nil.
  - destruct (decide (length pre = k)) as [Heq|Hne].
    + destruct Hend as [Hstop|Hlen]; [|simpl in Hlen; lia].
      rewrite Heq, Nat.sub_diag. simpl. by rewrite Hstop.
    + assert (Hlt : (length pre < k)%nat) by lia.
      replace (k - length pre)%nat with (S (k - S (length pre))) by lia.
      simpl. rewrite (Hbefore _ Hlt). simpl.
      specialize (IH (pre ++ [f])). rewrite length_app in IH. simpl in IH.
      replace (length pre + 1)%nat with (S (length pre)) in IH by lia.
      specialize (IH ltac:(lia)).
      assert (Hend' : is_running k = false ∨ (S (length pre) + length fs ≤ k)%nat).
      { destruct Hend as [Hstop|Hlen]; [by left|right; simpl in Hlen; lia]. }
      specialize (IH Hend'). clear Hend'.
      destruct (imread f) as [img|] eqn:Hf.
      * rewrite (last_loaded_snoc_Some imread _ _ _ Hf) in IH. simpl in IH.
        rewrite IH. simpl. f_equal. f_equal.
        unfold expected_similarity.
        destruct (last_loaded imread pre) as [p|] eqn:Hp; simpl.
        -- apply last_loaded_Some_length in Hp.
           by destruct (Nat.ltb_spec 0 (length pre)); [|lia].
        -- by rewrite andb_false_r.
      * rewrite (last_loaded_snoc_None imread _ _ Hf) in IH. by rewrite IH.
Qed.

(** The round in which the loop ends: the first one whose flag reads
    False, or the end of the list. *)
Lemma first_stop (is_running : nat → bool) (n : nat) :
  ∃ k, (k ≤ n)%nat ∧ (∀ j, (j < k)%nat → is_running j = true) ∧
       (is_running k = false ∨ k = n).
Proof.
  induction n as [|n (k & Hle & Hbefore & Hend)].
  - exists 0%nat. split; [lia|]. split; [intros; lia|by right].
  - destruct Hend as [Hstop| ->].
    + exists k. split; [lia|]. split; [done|by left].
    + destruct (is_running n) eqn:Hn.
      * exists (S n). split; [lia|]. split; [|by right].
        intros j Hj. destruct (decide (j = n)) as [->|]; [done|].
        apply Hbefore. lia.
      * exists n. split; [lia|]. split; [done|by left].
Qed.

Lemma run_is_prefix (is_running : nat → bool) (fs : list string) :
  ∃ k, (k ≤ length fs)%nat ∧
    run imread make_thumbnail sim_sample compare_hist calculate_blur is_running fs
    = expected_from' (length fs) [] (take k fs).
Proof.
  destruct (first_stop is_running (length fs)) as (k & Hle & Hbefore & Hend).
  exists k. split; [done|]. unfold run.
  rewrite <- (Nat.sub_0_r k) at 1.
  apply (run_from_upto is_running k (length fs) fs Hbefore []).
  - simpl. lia.
  - destruct Hend as [Hstop| ->]; [by left|right; simpl; lia].
Qed.

Lemma expected_from_progress total pre fs c n :
  ProgressUpdate c n ∈ expected_from' total pre fs ↔
  n = total ∧ ∃ i f, fs !! i = Some f ∧ is_Some (imread f) ∧
                     c = (length pre + i + 1)%nat.
Proof.
  revert pre. induction fs as [|f fs IH]; intros pre.
  - split; [intros H; by apply elem_of_nil in H|].
    by intros (_ & i & g & Hi & _).
  - cbn [expected_from]. rewrite elem_of_app, IH, length_app. split.
    + intros [Hhead|(-> & i & g & Hi & Hg & ->)].
      * destruct (imread f) as [img|] eqn:Hf; [|by apply elem_of_nil in Hhead].
        apply elem_of_cons in Hhead as [Heq|Hhead]; [done|].
        apply list_elem_of_singleton in Hhead. injection Hhead as -> ->.
        split; [done|]. exists 0%nat, f. rewrite Hf.
        split; [done|]. split; [by eexists|lia].
      * split; [done|]. exists (S i), g. split; [done|].
        split; [done|]. simpl. lia.
    + intros (-> & i & g & Hi & Hg & ->). destruct i as [|i].
      * left. injection Hi as ->. destruct Hg as [img Hg]. rewrite Hg.
        apply elem_of_cons. right. apply list_elem_of_singleton. f_equal. lia.
      * right. split; [done|]. exists i, g. split; [done|].
        split; [done|]. simpl. lia.
Qed.

Lemma expected_from_result total pre fs f b si t :
  ResultReady f b si t ∈ expected_from' total pre fs ↔
  ∃ i img, fs !! i = Some f ∧ imread f = Some img ∧ b = calculate_blur img ∧
    si = expected_similarity imread sim_sample compare_hist (pre ++ take i fs) img ∧
    t = make_thumbnail img.
Proof.
  revert pre. induction fs as [|g fs IH]; intros pre.
  - split; [intros H; by apply elem_of_nil in H|].
    by intros (i & img & Hi & _).
  - cbn [expected_from]. rewrite elem_of_app, IH. split.
    + intros [Hhead|(i & img & Hi & Hf & -> & -> & ->)].
      * destruct (imread g) as [img|] eqn:Hg; [|by apply elem_of_nil in Hhead].
        apply elem_of_cons in Hhead as [Heq|Hhead].
        -- injection Heq as -> -> -> ->. exists 0%nat, img.
           rewrite take_0, app_nil_r. done.
        -- by apply list_elem_of_singleton in Hhead.
      * exists (S i), img. split; [done|]. split; [done|]. split; [done|].
        split; [|done]. by rewrite <- app_assoc.
    + intros (i & img & Hi & Hf & -> & -> & ->). destruct i as [|i].
      * left. injection Hi as ->. rewrite Hf, take_0, app_nil_r.
        apply elem_of_cons. by left.
      * right. exists i, img. split; [done|]. split; [done|]. split; [done|].
        split; [|done]. by rewrite <- app_assoc.
Qed.

Lemma expected_from_length total pre fs :
  length (expected_from' total pre fs)
  = (2 * length (result_paths (expected_from' total pre fs)))%nat.
Proof.
  revert pre. induction fs as [|f fs IH]; intros pre; [done|].
  cbn [expected_from]. unfold result_paths in *.
  rewrite omap_app, !length_app, IH.
  destruct (imread f); simpl; lia.
Qed.

End AnalyzerMore.

(** X7. Stopping the analysis thread.  When the flag reads True in the
    rounds before [k] and False in round [k], run emits exactly the
    signals of the first [k] files of the list, the same ones an
    uninterrupted run emits first; a stop before the first round emits
    nothing.  Delivering them leaves the records of the files from
    position [k] on as they were. *)
Theorem run_stopped_emits_prefix {Img Thumb}
    (imread : string → option Img) (make_thumbnail : Img → Thumb)
    (sim_sample : Img → Img) (compare_hist : Img → Img → float)
    (calculate_blur : Img → float) (is_running : nat → bool) (k : nat)
    (fs : list string) :
  (∀ j, (j < k)%nat → is_running j = true) → is_running k = false →
  let emitted :=
    run imread make_thumbnail sim_sample compare_hist calculate_blur is_running fs in
  let full :=
    run imread make_thumbnail sim_sample compare_hist calculate_blur (λ _, true) fs in
  emitted = expected_from imread make_thumbnail sim_sample compare_hist calculate_blur
              (length fs) [] (take k fs) ∧
  full = emitted ++ expected_from imread make_thumbnail sim_sample compare_hist
                      calculate_blur (length fs) (take k fs) (drop k fs) ∧
  result_paths emitted = filter (λ f, is_Some (imread f)) (take k fs) ∧
  (k = 0%nat → emitted = []) ∧
  (∀ s : app Thumb,
     files s = fs → wf_store s → is_Some (files s !! current_idx s) →
     ∃ s', deliver_all emitted s = Some s' ∧ files s' = fs ∧
       ∀ f, f ∈ drop k fs → image_data s' !! f = image_data s !! f).
Proof.
  intros Hbefore Hstop emitted full.
  assert (Hem : emitted = expected_from imread make_thumbnail sim_sample compare_hist
                            calculate_blur (length fs) [] (take k fs)).
  { unfold emitted, run. rewrite <- (Nat.sub_0_r k) at 1.
    apply (run_from_upto imread make_thumbnail sim_sample compare_hist
             calculate_blur is_running k (length fs) fs Hbefore []);
      [simpl; lia|by left]. }
  assert (Hpaths : result_paths emitted = filter (λ f, is_Some (imread f)) (take k fs)).
  { rewrite Hem. apply result_paths_expected_from. }
  split; [done|]. split; [|split; [done|split]].
  - unfold full, run.
    etrans; [exact (run_from_expected imread make_thumbnail sim_sample compare_hist
                      calculate_blur (λ _, true) (λ _, eq_refl) (length fs) fs [])|].
    rewrite Hem. rewrite <- (take_drop k fs) at 2.
    by rewrite expected_from_app.
  - intros ->. by rewrite Hem, take_0.
  - intros s Hfiles Hwf Hcur.
    assert (Hsub : ∀ f, f ∈ result_paths emitted → f ∈ take k fs).
    { intros f. rewrite Hpaths. intros Hf. by apply list_elem_of_filter in Hf as [_ Hf]. }
    destruct (deliver_all_frame emitted s Hwf Hcur) as (s' & Hrun & Hfs & Hframe).
    { intros f Hf. rewrite Hfiles, <- (take_drop k fs). apply elem_of_app.
      left. by apply Hsub. }
    exists s'. split; [done|]. split; [by rewrite Hfs|].
    intros f Hf. apply Hframe. intros Hin. apply Hsub in Hin.
    destruct Hwf as [Hnd _]. rewrite Hfiles, <- (take_drop k fs) in Hnd.
    apply NoDup_app in Hnd as (_ & Hdisj & _). by apply (Hdisj f).
Qed.

Lemma run_stopped_emits_prefix_witness :
  run Sample.imread Sample.make_thumbnail Sample.sim_sample Sample.compare_hist
    Sample.calculate_blur (λ i, (i <? 2)%nat) Sample.folder
  = [ResultReady "a.jpg" 200%float 0%float tt; ProgressUpdate 1 3] ∧
  (∃ s', deliver_all
           (run Sample.imread Sample.make_thumbnail Sample.sim_sample
              Sample.compare_hist Sample.calculate_blur (λ i, (i <? 2)%nat)
              Sample.folder) Sample.fresh = Some s' ∧
     image_data s' !! "c.jpg" = image_data Sample.fresh !! "c.jpg").
Proof.
  pose proof (run_stopped_emits_prefix
                Sample.imread Sample.make_thumbnail Sample.sim_sample
                Sample.compare_hist Sample.calculate_blur (λ i, (i <? 2)%nat)
                2%nat Sample.folder) as H.
  destruct H as (Hem & _ & _ & _ & Hstore).
  { intros j Hj. destruct j as [|[|j]]; [reflexivity|reflexivity|lia]. }
  { reflexivity. }
  split.
  - rewrite Hem. vm_compute. reflexivity.
  - destruct (Hstore Sample.fresh) as (s' & Hrun & _ & Hframe).
    + reflexivity.
    + apply wf_storeb_correct. vm_compute. reflexivity.
    + vm_compute. eexists. reflexivity.
    + exists s'. split; [exact Hrun|]. apply Hframe. vm_compute.
      apply list_elem_of_singleton. reflexivity.
Defined.

(** X8. The progress signals of run, whatever the stop flag does.  The
    signals come from a prefix of the list; every progress signal carries
    the length of the list as total and the one-based position of a
    readable file as current; every result is followed by the progress
    signal of its position, so there are as many of the one as of the
    other; and in an uninterrupted run the progress reaches the total
    exactly when the last file of the list can be read. *)
Theorem progress_signals_follow_results {Img Thumb}
    (imread : string → option Img) (make_thumbnail : Img → Thumb)
    (sim_sample : Img → Img) (compare_hist : Img → Img → float)
    (calculate_blur : Img → float) (is_running : nat → bool) (fs : list string) :
  let emitted :=
    run imread make_thumbnail sim_sample compare_hist calculate_blur is_running fs in
  (∃ k, (k ≤ length fs)%nat ∧
     emitted = expected_from imread make_thumbnail sim_sample compare_hist
                 calculate_blur (length fs) [] (take k fs)) ∧
  (∀ c n, ProgressUpdate c n ∈ emitted →
     n = length fs ∧ (1 ≤ c ≤ n)%nat ∧
     ∃ f img, fs !! (c - 1)%nat = Some f ∧ imread f = Some img ∧
       ∃ si, ResultReady f (calculate_blur img) si (make_thumbnail img) ∈ emitted) ∧
  (∀ f b si t, ResultReady f b si t ∈ emitted →
     ∃ i img, fs !! i = Some f ∧ imread f = Some img ∧
       b = calculate_blur img ∧ t = make_thumbnail img ∧
       ProgressUpdate (i + 1) (length fs) ∈ emitted) ∧
  length emitted = (2 * length (result_paths emitted))%nat ∧
  ((∀ i, is_running i = true) →
   (ProgressUpdate (length fs) (length fs) ∈ emitted ↔
    ∃ f, last fs = Some f ∧ is_Some (imread f))).
Proof.
  intros emitted.
  destruct (run_is_prefix imread make_thumbnail sim_sample compare_hist
              calculate_blur is_running fs) as (k & Hk & Hem).
  fold emitted in Hem.
  split; [by exists k|]. split; [|split; [|split]].
  - intros c n Hin. rewrite Hem in Hin.
    apply expected_from_progress in Hin as (-> & i & f & Hi & [img Hf] & ->).
    apply lookup_take_Some in Hi as [Hi Hik].
    pose proof (lookup_lt_Some _ _ _ Hi) as Hlt.
    split; [done|]. split; [simpl; lia|].
    exists f, img. replace (length [] + i + 1 - 1)%nat with i by (simpl; lia).
    split; [done|]. split; [done|].
    eexists. rewrite Hem. apply expected_from_result.
    exists i, img. split; [by apply lookup_take_Some|]. done.
  - intros f b si t Hin. rewrite Hem in Hin.
    apply expected_from_result in Hin as (i & img & Hi & Hf & -> & _ & ->).
    exists i, img. split; [by apply lookup_take_Some in Hi as [Hi _]|].
    split; [done|]. split; [done|]. split; [done|].
    rewrite Hem. apply expected_from_progress. split; [done|].
    exists i, f. split; [done|]. split; [by eexists|done].
  - rewrite Hem. apply expected_from_length.
  - intros Hall.
    assert (Hfull : emitted = expected_from imread make_thumbnail sim_sample
                                compare_hist calculate_blur (length fs) [] fs).
    { unfold emitted, run.
      apply (run_from_expected imread make_thumbnail sim_sample compare_hist
               calculate_blur is_running Hall (length fs) fs []). }
    rewrite Hfull, expected_from_progress, last_lookup. split.
    + intros (_ & i & f & Hi & Hf & Hc). exists f. split; [|done].
      simpl in Hc. replace (pred (length fs)) with i by lia. done.
    + intros (f & Hlast & Hf). split; [done|].
      exists (pred (length fs)), f. split; [done|]. split; [done|].
      apply lookup_lt_Some in Hlast. simpl. lia.
Qed.

Lemma progress_signals_follow_results_witness :
  ProgressUpdate 3 3 ∈ Sample.events ∧
  ProgressUpdate 2 2
    ∉ run Sample.imread Sample.make_thumbnail Sample.sim_sample Sample.compare_hist
        Sample.calculate_blur Sample.is_running ["a.jpg"; "b.jpg"].
Proof.
  split.
  - apply (proj2 (proj2 (proj2 (proj2
             (progress_signals_follow_results Sample.imread Sample.make_thumbnail
                Sample.sim_sample Sample.compare_hist Sample.calculate_blur
                Sample.is_running Sample.folder)))) (λ _, eq_refl)).
    exists "c.jpg". split; [reflexivity|]. vm_compute. eexists. reflexivity.
  - intros Hin.
    apply (proj2 (proj2 (proj2 (proj2
             (progress_signals_follow_results Sample.imread Sample.make_thumbnail
                Sample.sim_sample Sample.compare_hist Sample.calculate_blur
                Sample.is_running ["a.jpg"; "b.jpg"])))) (λ _, eq_refl)) in Hin.
    destruct Hin as (f & Hlast & Hf). vm_compute in Hlast.
    injection Hlast as <-. vm_compute in Hf. destruct Hf as [x Hx]. discriminate Hx.
Defined.
